(** * ClearOut.bio link scanner: a shallow embedding of
    [src/app/api/scan-links/route.ts] and of [exportAsHTML] in
    [src/app/page.tsx], with the properties of the specification
    that can be settled on it. *)

From Stdlib Require Import ZArith Lia Ascii.
From stdpp Require Import base option list strings sorting pretty.

(** ** JavaScript primitives used by the two files *)

Module JS.

(** [s.startsWith(p)] *)
Definition startsWith (s p : string) : bool := String.prefix p s.

(** Truthiness of a string: only the empty string is falsy. *)
Definition truthy (s : string) : bool := negb (String.eqb s "").

(** [a || b] on strings. *)
Definition or_else (a b : string) : string := if truthy a then a else b.

(** [a !== b] on strings: code unit by code unit. *)
Definition strict_ne (a b : string) : bool := negb (String.eqb a b).

(** [arr.slice(from, to)]: the elements at positions [from .. to-1],
    cut at the end of the array. *)
Definition slice {A} (from to : nat) (arr : list A) : list A :=
  take (to - from) (drop from arr).

(** [arr.includes(x)] on an array of strings. *)
Definition includes (arr : list string) (x : string) : bool :=
  bool_decide (x ∈ arr).

(** [arr.join(sep)] on an array of strings. *)
Fixpoint join (sep : string) (arr : list string) : string :=
  match arr with
  | [] => ""
  | [x] => x
  | x :: rest => x +:+ sep +:+ join sep rest
  end.

(** The double quote and the line feed, which occur in the template
    literals of the export. *)
Definition dquote : string := String (Ascii.ascii_of_nat 34) "".
Definition newline : string := String (Ascii.ascii_of_nat 10) "".

End JS.

(** ** Completions

    A JavaScript computation either returns a value, throws, or (for an
    awaited promise) never settles. *)

Inductive Thrown : Type :=
  | ErrorObject (name message : string)   (* [error instanceof Error] holds *)
  | OtherValue (shown : string).          (* any other thrown value *)

Inductive Completion (A : Type) : Type :=
  | Normal (a : A)
  | Abrupt (e : Thrown)
  | Pending.
Arguments Normal {A} a.
Arguments Abrupt {A} e.
Arguments Pending {A}.

#[global] Instance Completion_ret : MRet Completion := @Normal.
#[global] Instance Completion_bind : MBind Completion := λ A B f c,
  match c with
  | Normal a => f a
  | Abrupt e => Abrupt e
  | Pending => Pending
  end.

(** [try { body } catch (e) { handler e }] *)
Definition try_catch {A} (body : Completion A) (handler : Thrown → Completion A)
    : Completion A :=
  match body with
  | Abrupt e => handler e
  | c => c
  end.

(** A callback run over every element of a sequence, threading the
    state it mutates ([.each] of cheerio, with a callback that never asks
    to stop). *)
Fixpoint each {A S} (f : S → A → Completion S) (l : list A) (s : S)
    : Completion S :=
  match l with
  | [] => Normal s
  | x :: l' => s' ← f s x; each f l' s'
  end.

(** ** The platform: URL parsing and HTML selection

    [new URL(..)] and cheerio's [load]/[$('a[href]')] are not code of the
    repository. The server code is embedded over an arbitrary platform;
    a concrete one is given further down. *)

Record URL : Type := MkURL { href : string; origin : string }.

Class Platform : Type := {
  (** [url_parse input base]: the URL record built by [new URL(input)] or
      [new URL(input, base)], [None] when the constructor throws. *)
  url_parse : string → option string → option URL;
  (** the values of the [href] attribute of the elements selected by
      ['a[href]'] in the parsed document, in document order *)
  anchor_hrefs : string → list string;
}.

Section Server.
Context `{Platform}.

Definition new_URL (input : string) (base : option string) : Completion URL :=
  match url_parse input base with
  | Some u => Normal u
  | None => Abrupt (ErrorObject "TypeError" "Invalid URL")
  end.

(** [isValidUrl], route.ts lines 23-30 *)
Definition isValidUrl (string : string) : Completion bool :=
  try_catch (_ ← new_URL string None; Normal true)
            (λ _, Normal false).

(** The body of the [try] block of [normalizeUrl], route.ts lines 35-51.
    [baseUrl] is an optional parameter: [None] is [undefined]. *)
Definition normalizeUrl_body (url : string) (baseUrl : option string)
    : Completion string :=
  if JS.startsWith url "http://" || JS.startsWith url "https://" then
    Normal url
  else if JS.startsWith url "//" then
    Normal ("https:" +:+ url)
  else if JS.startsWith url "/" then
    match baseUrl with
    | Some b =>
        if JS.truthy b then
          base ← new_URL b None;
          Normal (origin base +:+ url)
        else Normal url
    | None => Normal url
    end
  else
    match baseUrl with
    | Some b =>
        if JS.truthy b then
          u ← new_URL url (Some b);
          Normal (href u)
        else Normal ("https://" +:+ url)
    | None => Normal ("https://" +:+ url)
    end.

(** [normalizeUrl], route.ts lines 33-55 *)
Definition normalizeUrl (url : string) (baseUrl : option string)
    : Completion string :=
  try_catch (normalizeUrl_body url baseUrl) (λ _, Normal url).

(** The callback of [.each] in [extractLinks], route.ts lines 129-140;
    [links] is the array it pushes to. *)
Definition extractLinks_step (baseUrl : string) (links : list string)
    (href : string) : Completion (list string) :=
  if JS.truthy href then
    normalizedUrl ← normalizeUrl href (Some baseUrl);
    valid ← isValidUrl normalizedUrl;
    if valid && negb (JS.startsWith normalizedUrl "mailto:")
             && negb (JS.startsWith normalizedUrl "tel:") then
      if negb (JS.includes links normalizedUrl) then
        Normal (links ++ [normalizedUrl])
      else Normal links
    else Normal links
  else Normal links.

(** [extractLinks], route.ts lines 125-143 *)
Definition extractLinks (html baseUrl : string) : Completion (list string) :=
  each (extractLinks_step baseUrl) (anchor_hrefs html) [].

End Server.

(** ** Data model, route.ts lines 4-20 *)

Record LinkResult : Type := MkLinkResult {
  originalUrl : string;
  finalUrl : string;
  status : Z;
  statusText : string;
  isWorking : bool;
  isRedirect : bool;
  responseTime : Z;
}.

Record ScanResult : Type := MkScanResult {
  totalLinks : nat;
  workingLinks : nat;
  brokenLinks : nat;
  redirects : nat;
  links : list LinkResult;
}.

(** ** Promises and the network *)

Inductive Settled (A : Type) : Type :=
  | Fulfilled (a : A)
  | Rejected (e : Thrown).
Arguments Fulfilled {A} a.
Arguments Rejected {A} e.

(** [await] on a promise that settles. *)
Definition await {A} (p : Settled A) : Completion A :=
  match p with
  | Fulfilled a => Normal a
  | Rejected e => Abrupt e
  end.

(** What the code reads of a fetch [Response]. [resp_text] is the outcome of
    [response.text()]. *)
Record Response : Type := MkResponse {
  resp_url : string;
  resp_status : Z;
  resp_statusText : string;
  resp_text : Completion string;
}.

(** [response.ok]: the status is in the range 200-299. *)
Definition resp_ok (r : Response) : bool :=
  ((200 <=? resp_status r) && (resp_status r <=? 299))%Z.

(** One HEAD request as [checkLink] sees it: the two readings of
    [Date.now()], how [fetch] settles (the abort timer makes it settle),
    and the position of that settlement in the event loop's order. *)
Record Exchange : Type := MkExchange {
  clock_before : Z;
  clock_after : Z;
  settle_order : nat;
  settled : Settled Response;
}.

(** The promise an async function returns: when it settles, and how
    ([Pending]: never). *)
Record Promise (A : Type) : Type := MkPromise {
  settles_at : nat;
  outcome : Completion A;
}.
Arguments MkPromise {A} settles_at outcome.
Arguments settles_at {A} p.
Arguments outcome {A} p.

(** The network of one scan: the answer to the GET of the page, and the
    answer to the [k]-th HEAD request of the scan, sent to a given URL. *)
Record World : Type := MkWorld {
  GET : string → Settled Response;
  HEAD : nat → string → Exchange;
}.

(** *** [Promise.all]

    The settlements are handled in the order in which they happen. A
    fulfilment stores its value at the index of its promise and decrements
    the count of remaining elements; the first rejection rejects the
    whole; the result is the array of values once the count is zero. *)

Record Settlement (A : Type) : Type := MkSettlement {
  at_time : nat;
  index : nat;
  result : Completion A;
}.
Arguments MkSettlement {A} at_time index result.
Arguments at_time {A} s.
Arguments index {A} s.
Arguments result {A} s.

Definition earlier {A} (s1 s2 : Settlement A) : Prop := at_time s1 ≤ at_time s2.

#[global] Instance earlier_dec {A} (s1 s2 : Settlement A) : Decision (earlier s1 s2).
Proof. unfold earlier. apply _. Defined.

Definition settlements {A} (ps : list (Promise A)) : list (Settlement A) :=
  merge_sort earlier (imap (λ i p, MkSettlement (settles_at p) i (outcome p)) ps).

Fixpoint promise_all_run {A} (events : list (Settlement A))
    (values : list (option A)) (remaining : nat) : Completion (list A) :=
  match events with
  | [] =>
      if remaining =? 0 then
        match mapM id values with
        | Some vs => Normal vs
        | None => Pending
        end
      else Pending
  | ev :: events' =>
      match result ev with
      | Normal v => promise_all_run events' (<[index ev := Some v]> values) (remaining - 1)
      | Abrupt e => Abrupt e
      | Pending => promise_all_run events' values remaining
      end
  end.

Definition promise_all {A} (ps : list (Promise A)) : Completion (list A) :=
  promise_all_run (settlements ps) (replicate (length ps) None) (length ps).

(** ** The link prober *)

(** [getStatusText], route.ts lines 105-122 *)
Definition statusTexts : list (Z * string) :=
  [ (200, "OK"); (201, "Created"); (301, "Moved Permanently"); (302, "Found");
    (304, "Not Modified"); (400, "Bad Request"); (401, "Unauthorized");
    (403, "Forbidden"); (404, "Not Found"); (500, "Internal Server Error");
    (502, "Bad Gateway"); (503, "Service Unavailable") ]%Z.

Definition getStatusText (status : Z) : string :=
  match list_find (λ kv, kv.1 = status) statusTexts with
  | Some (_, (_, text)) => JS.or_else text "Unknown"
  | None => "Unknown"
  end.

(** [error instanceof Error ? error.message : 'Network Error'] *)
Definition failure_text (error : Thrown) : string :=
  match error with
  | ErrorObject _ message => message
  | OtherValue _ => "Network Error"
  end.

(** The body of [checkLink], route.ts lines 58-102, run against the
    exchange [x] that its [fetch] call turns out to be. *)
Definition checkLink_run (x : Exchange) (url : string) : Completion LinkResult :=
  let startTime := clock_before x in
  try_catch
    (response ← await (settled x);
     let responseTime := (clock_after x - startTime)%Z in
     let isRedirect := JS.strict_ne (resp_url response) url in
     let isWorking :=
       ((resp_status response >=? 200) && (resp_status response <? 400))%Z in
     Normal {| originalUrl := url;
               finalUrl := JS.or_else (resp_url response) url;
               status := resp_status response;
               statusText := JS.or_else (resp_statusText response)
                                        (getStatusText (resp_status response));
               isWorking := isWorking;
               isRedirect := isRedirect;
               responseTime := responseTime |})
    (λ error,
     let responseTime := (clock_after x - startTime)%Z in
     Normal {| originalUrl := url;
               finalUrl := url;
               status := 0;
               statusText := failure_text error;
               isWorking := false;
               isRedirect := false;
               responseTime := responseTime |}).

(** [checkLink(url)] as the promise the call returns. *)
Definition checkLink (x : Exchange) (url : string) : Promise LinkResult :=
  MkPromise (settle_order x) (checkLink_run x url).

(** ** The request and the reply of the endpoint *)

(** A JavaScript value, as far as the endpoint tells values apart. *)
Inductive JsValue : Type :=
  | VUndefined
  | VNull
  | VBool (b : bool)
  | VNum (n : Z)
  | VStr (s : string)
  | VObject.

(** A parsed JSON body, as far as the endpoint looks at it: of an object
    only its [url] property ([VUndefined]: no such property). *)
Inductive Json : Type :=
  | JNull
  | JObj (url : JsValue)
  | JOther.                 (* a boolean, number, string or array *)

(** [request.json()] *)
Record NextRequest : Type := MkRequest { req_json : Completion Json }.

(** [const { url } = value]: destructuring [null] throws; booleans,
    numbers, strings and arrays have no [url]. *)
Definition destructure_url (value : Json) : Completion JsValue :=
  match value with
  | JNull =>
      Abrupt (ErrorObject "TypeError" "Cannot destructure property 'url' of null")
  | JObj url => Normal url
  | JOther => Normal VUndefined
  end.

(** [!v] *)
Definition js_not (v : JsValue) : bool :=
  match v with
  | VUndefined | VNull => true
  | VBool b => negb b
  | VNum n => (n =? 0)%Z
  | VStr s => negb (JS.truthy s)
  | VObject => false
  end.

Inductive ReplyBody : Type :=
  | ScanBody (r : ScanResult)
  | ErrorBody (error : string).

(** [NextResponse.json(body, { status })] *)
Record NextResponse : Type := MkReply { body : ReplyBody; http_status : Z }.

Definition maxConcurrent : nat := 10.

(** The state of the probing loop: the array it appends to, and the
    rounds of HEAD requests sent so far (one round per [Promise.all]). *)
Record Probing : Type := MkProbing {
  linkResults : list LinkResult;
  rounds : list (list string);
}.

(** The loop of route.ts lines 200-206, from index [i] on. [fuel] bounds
    the number of iterations; running out of it shows as [Pending]. *)
Fixpoint probe_from (w : World) (extractedLinks : list string)
    (fuel i : nat) (st : Probing) : Completion Probing :=
  if i <? length extractedLinks then
    match fuel with
    | 0 => Pending
    | S fuel' =>
        let batch := JS.slice i (i + maxConcurrent) extractedLinks in
        batchResults ←
          promise_all (imap (λ k link, checkLink (HEAD w (i + k) link) link) batch);
        probe_from w extractedLinks fuel' (i + maxConcurrent)
          {| linkResults := linkResults st ++ batchResults;
             rounds := rounds st ++ [batch] |}
    end
  else Normal st.

(** The batch scheduler: the whole loop, with as many iterations allowed
    as there are links. *)
Definition probeAll (w : World) (extractedLinks : list string) : Completion Probing :=
  probe_from w extractedLinks (length extractedLinks) 0 (MkProbing [] []).

(** The statistics of route.ts lines 209-219. *)
Definition summarize (linkResults : list LinkResult) : ScanResult :=
  let workingLinks :=
    length (filter (λ link, isWorking link && negb (isRedirect link) = true) linkResults) in
  let redirects :=
    length (filter (λ link, isRedirect link && isWorking link = true) linkResults) in
  let brokenLinks :=
    length (filter (λ link, negb (isWorking link) = true) linkResults) in
  {| totalLinks := length linkResults;
     workingLinks := workingLinks;
     brokenLinks := brokenLinks;
     redirects := redirects;
     links := linkResults |}.

Section Endpoint.
Context `{Platform}.

(** The [try] block of [POST], route.ts lines 147-221. *)
Definition POST_body (w : World) (request : NextRequest) : Completion NextResponse :=
  parsed ← req_json request;
  url ← destructure_url parsed;
  match url with
  | VStr url =>
      if js_not (VStr url) then
        Normal (MkReply (ErrorBody "URL is required") 400)
      else
        valid ← isValidUrl url;
        if negb valid then
          Normal (MkReply (ErrorBody "Invalid URL format") 400)
        else
          response ← await (GET w url);
          if negb (resp_ok response) then
            Normal (MkReply
              (ErrorBody ("Failed to fetch URL: " +:+ pretty (resp_status response)
                          +:+ " " +:+ resp_statusText response)) 400)
          else
            html ← resp_text response;
            extractedLinks ← extractLinks html url;
            if length extractedLinks =? 0 then
              Normal (MkReply (ScanBody (MkScanResult 0 0 0 0 [])) 200)
            else
              probing ← probeAll w extractedLinks;
              Normal (MkReply (ScanBody (summarize (linkResults probing))) 200)
  | _ => Normal (MkReply (ErrorBody "URL is required") 400)
  end.

(** The [catch] block of [POST], route.ts lines 223-237. *)
Definition POST_catch (error : Thrown) : Completion NextResponse :=
  match error with
  | ErrorObject name _ =>
      if String.eqb name "AbortError" then
        Normal (MkReply
          (ErrorBody "Request timeout - the URL took too long to respond") 408)
      else Normal (MkReply (ErrorBody "Internal server error") 500)
  | OtherValue _ => Normal (MkReply (ErrorBody "Internal server error") 500)
  end.

(** [POST], route.ts lines 145-238. *)
Definition POST (w : World) (request : NextRequest) : Completion NextResponse :=
  try_catch (POST_body w request) POST_catch.

End Endpoint.

(** ** The export of the page, page.tsx lines 63-81 *)

(** One line of the snippet, for one link. *)
Definition anchor_line (link : LinkResult) : string :=
  "  <a href=" +:+ JS.dquote +:+ finalUrl link +:+ JS.dquote
  +:+ " target=" +:+ JS.dquote +:+ "_blank" +:+ JS.dquote
  +:+ " rel=" +:+ JS.dquote +:+ "noopener noreferrer" +:+ JS.dquote
  +:+ ">" +:+ finalUrl link +:+ "</a>".

(** The text handed to the [Blob]; [None] when there is no result and
    nothing is exported. *)
Definition exportAsHTML (result : option ScanResult) : option string :=
  match result with
  | None => None
  | Some result =>
      let workingLinks := filter (λ link, isWorking link = true) (links result) in
      Some ("<!-- Cleaned Links from ClearOut.bio -->" +:+ JS.newline
            +:+ "<div class=" +:+ JS.dquote +:+ "bio-links" +:+ JS.dquote +:+ ">"
            +:+ JS.newline
            +:+ JS.join JS.newline (anchor_line <$> workingLinks) +:+ JS.newline
            +:+ "</div>")
  end.

(** ** A concrete platform

    The properties of [normalizeUrl] on given strings depend on what
    [new URL] computes. [WhatwgLite] follows the parser and the serializer
    of the URL Standard on a fragment of it: the schemes http, https, ws,
    wss and ftp with a domain as host, and other schemes with an opaque
    path. Outside that fragment (credentials, IP addresses, percent signs
    or non-ASCII in hosts, [file:], other schemes followed by a slash)
    [parse] gives [None], also where the platform would accept the input. *)

Module WhatwgLite.

Abbreviation chars := (list Ascii.ascii).

Definition code (c : Ascii.ascii) : nat := Ascii.nat_of_ascii c.
Definition eqc (a c : Ascii.ascii) : bool := Ascii.eqb a c.
Arguments eqc (a c)%_char.

Definition is_upper (c : Ascii.ascii) : bool := (65 <=? code c) && (code c <=? 90).
Definition is_alpha (c : Ascii.ascii) : bool :=
  is_upper c || (97 <=? code c) && (code c <=? 122).
Definition is_digit (c : Ascii.ascii) : bool := (48 <=? code c) && (code c <=? 57).
Definition lower (c : Ascii.ascii) : Ascii.ascii :=
  if is_upper c then Ascii.ascii_of_nat (code c + 32) else c.
Definition is_scheme_char (c : Ascii.ascii) : bool :=
  is_alpha c || is_digit c || eqc "+" c || eqc "-" c || eqc "." c.
Definition is_c0_or_space (c : Ascii.ascii) : bool := code c <=? 32.
Definition is_tab_or_newline (c : Ascii.ascii) : bool :=
  (code c =? 9) || (code c =? 10) || (code c =? 13).
Definition is_slash (special : bool) (c : Ascii.ascii) : bool :=
  eqc "/" c || special && eqc "\" c.

(** Percent-encode sets. *)
Definition c0_set (c : Ascii.ascii) : bool := (code c <=? 31) || (126 <? code c).
Definition fragment_set (c : Ascii.ascii) : bool :=
  c0_set c || eqc " " c || (code c =? 34) || eqc "<" c || eqc ">" c || eqc "`" c.
Definition query_set (special : bool) (c : Ascii.ascii) : bool :=
  c0_set c || eqc " " c || (code c =? 34) || eqc "#" c || eqc "<" c || eqc ">" c
  || special && eqc "'" c.
Definition path_set (c : Ascii.ascii) : bool :=
  query_set false c || eqc "?" c || eqc "`" c || eqc "{" c || eqc "}" c.
Definition forbidden_host (c : Ascii.ascii) : bool :=
  c0_set c || eqc " " c || (code c =? 34) || eqc "#" c || eqc "%" c || eqc "/" c
  || eqc ":" c || eqc "<" c || eqc ">" c || eqc "?" c || eqc "@" c || eqc "[" c
  || eqc "\" c || eqc "]" c || eqc "^" c || eqc "|" c.

Definition hex_digit (n : nat) : Ascii.ascii :=
  Ascii.ascii_of_nat (if n <? 10 then 48 + n else 55 + n).
Definition percent_encode (set : Ascii.ascii → bool) (s : chars) : chars :=
  c ← s;
  if set c then ["%"%char; hex_digit (code c / 16); hex_digit (code c mod 16)]
  else [c].

(** The part of [s] before the first character satisfying [p], and the
    rest from that character on. *)
Fixpoint break (p : Ascii.ascii → bool) (s : chars) : chars * chars :=
  match s with
  | [] => ([], [])
  | c :: s' =>
      if p c then ([], s)
      else let '(a, b) := break p s' in (c :: a, b)
  end.

(** The pieces of [s] between the characters satisfying [p]. *)
Fixpoint split_on (p : Ascii.ascii → bool) (s : chars) (piece : chars) : list chars :=
  match s with
  | [] => [reverse piece]
  | c :: s' =>
      if p c then reverse piece :: split_on p s' []
      else split_on p s' (c :: piece)
  end.

Definition str (s : chars) : string := String.string_of_list_ascii s.
Definition unstr (s : string) : chars := String.list_ascii_of_string s.

Inductive UrlPath : Type :=
  | Opaque (s : string)
  | Segments (l : list string).

Record Parsed : Type := MkParsed {
  scheme : string;
  host : option string;
  port : option N;
  path : UrlPath;
  query : option string;
  fragment : option string;
}.

Definition default_port (scheme : string) : option N :=
  if String.eqb scheme "http" || String.eqb scheme "ws" then Some 80%N
  else if String.eqb scheme "https" || String.eqb scheme "wss" then Some 443%N
  else if String.eqb scheme "ftp" then Some 21%N
  else None.

Definition is_special (scheme : string) : bool :=
  bool_decide (is_Some (default_port scheme)).

(** Scheme state: letters, digits, [+], [-], [.] after a letter, up to
    a colon. *)
Definition take_scheme (s : chars) : option (string * chars) :=
  match s with
  | c :: _ =>
      if is_alpha c then
        match break (λ c, negb (is_scheme_char c)) s with
        | (name, colon :: rest) =>
            if eqc ":" colon then Some (str (lower <$> name), rest) else None
        | _ => None
        end
      else None
  | [] => None
  end.

Definition is_single_dot (seg : chars) : bool :=
  let s := str (lower <$> seg) in String.eqb s "." || String.eqb s "%2e".
Definition is_double_dot (seg : chars) : bool :=
  let s := str (lower <$> seg) in
  String.eqb s ".." || String.eqb s ".%2e" || String.eqb s "%2e."
  || String.eqb s "%2e%2e".

(** Shorten a path: drop its last segment. *)
Definition shorten (p : list string) : list string := take (length p - 1) p.

(** Path state, over the segments still to read. *)
Fixpoint run_path (p : list string) (segs : list chars) : list string :=
  match segs with
  | [] => p
  | seg :: rest =>
      let last := bool_decide (rest = []) in
      let p' :=
        if is_double_dot seg then
          if last then shorten p ++ [""] else shorten p
        else if is_single_dot seg then
          if last then p ++ [""] else p
        else p ++ [str (percent_encode path_set seg)] in
      run_path p' rest
  end.

(** What follows the path: [?query] and [#fragment]. *)
Definition split_tail (special : bool) (s : chars)
    : chars * option string * option string :=
  let '(before, frag) := break (eqc "#") s in
  let fragment := match frag with
                  | _ :: f => Some (str (percent_encode fragment_set f))
                  | [] => None
                  end in
  let '(p, q) := break (eqc "?") before in
  let query := match q with
               | _ :: q' => Some (str (percent_encode (query_set special) q'))
               | [] => None
               end in
  (p, query, fragment).

Definition digits_value (ds : chars) : N :=
  foldl (λ acc d, (acc * 10 + N.of_nat (code d - 48))%N) 0%N ds.

(** Authority state followed by host and port states, for a special
    scheme; then the path. [s] starts at the authority. *)
Definition parse_authority (scheme : string) (s : chars) : option Parsed :=
  let '(authority, rest) := break (λ c, is_slash true c || eqc "?" c || eqc "#" c) s in
  let '(hostpart, portpart) := break (eqc ":") authority in
  let name := lower <$> hostpart in
  let numeric (l : chars) :=
    bool_decide (l ≠ []) && forallb is_digit l
    || match l with
       | z :: x :: _ => eqc "0" z && eqc "x" x
       | _ => false
       end in
  let numeric_label :=
    match reverse (split_on (eqc ".") name []) with
    | [] :: l :: _ => numeric l
    | l :: _ => numeric l
    | [] => false
    end in
  if bool_decide (name = []) || existsb forbidden_host name || numeric_label then None
  else
    let port_digits := drop 1 portpart in
    if negb (forallb is_digit port_digits) then None
    else
      let value := digits_value port_digits in
      if (65535 <? value)%N then None
      else
        let port :=
          if bool_decide (port_digits = []) then None
          else if bool_decide (default_port scheme = Some value) then None
          else Some value in
        let '(p, qry, frg) := split_tail true rest in
        let segs := split_on (is_slash true) (match p with
                                              | c :: p' => if is_slash true c then p' else p
                                              | [] => []
                                              end) [] in
        Some {| scheme := scheme; host := Some (str name); port := port;
                path := Segments (run_path [] segs);
                query := qry; fragment := frg |}.

(** Relative state and relative slash state: [s] has no scheme of its
    own (or repeats the special scheme of the base). *)
Definition parse_relative (base : Parsed) (s : chars) : option Parsed :=
  let special := is_special (scheme base) in
  match path base with
  | Opaque _ =>
      match s with
      | c :: f =>
          if eqc "#" c then
            Some {| scheme := scheme base; host := host base; port := port base;
                    path := path base; query := query base;
                    fragment := Some (str (percent_encode fragment_set f)) |}
          else None
      | [] => None
      end
  | Segments base_path =>
      if negb special then None
      else
        match s with
        | c :: s' =>
            if is_slash true c then
              match s' with
              | c' :: _ =>
                  if is_slash true c' then
                    parse_authority (scheme base) (snd (break (λ c, negb (is_slash true c)) s'))
                  else
                    let '(p, qry, frg) := split_tail true s' in
                    Some {| scheme := scheme base; host := host base; port := port base;
                            path := Segments (run_path [] (split_on (is_slash true) p []));
                            query := qry; fragment := frg |}
              | [] =>
                  Some {| scheme := scheme base; host := host base; port := port base;
                          path := Segments [""]; query := None; fragment := None |}
              end
            else
              let '(p, qry, frg) := split_tail true s in
              match p with
              | [] =>
                  Some {| scheme := scheme base; host := host base; port := port base;
                          path := path base;
                          query := match qry with Some q => Some q | None => query base end;
                          fragment := frg |}
              | _ =>
                  Some {| scheme := scheme base; host := host base; port := port base;
                          path := Segments (run_path (shorten base_path)
                                                     (split_on (is_slash true) p []));
                          query := qry; fragment := frg |}
              end
        | [] =>
            Some {| scheme := scheme base; host := host base; port := port base;
                    path := path base; query := query base; fragment := None |}
        end
  end.

(** The basic URL parser, without state override. *)
Definition parse (input : string) (base : option Parsed) : option Parsed :=
  let trimmed :=
    reverse (snd (break (λ c, negb (is_c0_or_space c))
      (reverse (snd (break (λ c, negb (is_c0_or_space c)) (unstr input)))))) in
  let s := filter (λ c, is_tab_or_newline c = false) trimmed in
  match take_scheme s with
  | Some (name, rest) =>
      if is_special name then
        let same_scheme :=
          match base with
          | Some b => String.eqb (scheme b) name
          | None => false
          end in
        let double_slash :=
          match rest with
          | a :: b :: _ => eqc "/" a && eqc "/" b
          | _ => false
          end in
        match base with
        | Some b =>
            if same_scheme && negb double_slash then parse_relative b rest
            else parse_authority name (snd (break (λ c, negb (is_slash true c)) rest))
        | None => parse_authority name (snd (break (λ c, negb (is_slash true c)) rest))
        end
      else if String.eqb name "file" then None
      else
        match rest with
        | c :: _ => if eqc "/" c then None else
            let '(p, qry, frg) := split_tail false rest in
            Some {| scheme := name; host := None; port := None;
                    path := Opaque (str (percent_encode c0_set p));
                    query := qry; fragment := frg |}
        | [] =>
            Some {| scheme := name; host := None; port := None;
                    path := Opaque ""; query := None; fragment := None |}
        end
  | None =>
      match base with
      | Some b => parse_relative b s
      | None => None
      end
  end.

(** The URL serializer. *)
Definition serialize (u : Parsed) : string :=
  scheme u +:+ ":"
  +:+ match host u with
      | Some h => "//" +:+ h +:+ match port u with
                                 | Some p => ":" +:+ pretty p
                                 | None => ""
                                 end
      | None => ""
      end
  +:+ match path u with
      | Opaque s => s
      | Segments l => String.concat "" ((λ seg, "/" +:+ seg) <$> l)
      end
  +:+ match query u with Some q => "?" +:+ q | None => "" end
  +:+ match fragment u with Some f => "#" +:+ f | None => "" end.

(** The serialized origin: a tuple origin for the special schemes, an
    opaque one otherwise. *)
Definition serialize_origin (u : Parsed) : string :=
  match host u with
  | Some h =>
      if is_special (scheme u) then
        scheme u +:+ "://" +:+ h +:+ match port u with
                                      | Some p => ":" +:+ pretty p
                                      | None => ""
                                      end
      else "null"
  | None => "null"
  end.

(** [new URL(input)] and [new URL(input, base)]. *)
Definition url_parse (input : string) (base : option string) : option URL :=
  parsed ←
    match base with
    | None => parse input None
    | Some b => b' ← parse b None; parse input (Some b')
    end;
  Some (MkURL (serialize parsed) (serialize_origin parsed)).

End WhatwgLite.

(** [CheerioLite] selects the anchors of a document the way the HTML
    tokenizer sees tags: start and end tags with their names, attributes
    with double-quoted, single-quoted or unquoted values (the first of
    several attributes of one name counts), comments, the raw text of
    [script], [style], [textarea] and [title], and the content of [svg]
    and [math], where [xlink:href] is an [href]. In attribute values the
    numeric character references and [&amp;], [&lt;], [&gt;], [&quot;],
    [&apos;] and [&nbsp;] are decoded. The other named references, CDATA
    sections and the integration points of foreign content are outside
    this model. *)

Module CheerioLite.

Import WhatwgLite.

Definition is_space (c : Ascii.ascii) : bool :=
  eqc " " c || (code c =? 9) || (code c =? 10) || (code c =? 12) || (code c =? 13).

Definition is_quote (c : Ascii.ascii) : bool := (code c =? 34) || eqc "'" c.

Definition is_hex (c : Ascii.ascii) : bool :=
  is_digit c || (97 <=? code (lower c)) && (code (lower c) <=? 102).

Definition hex_value (ds : chars) : N :=
  foldl (λ acc d, (acc * 16 + N.of_nat (if is_digit d then code d - 48
                                        else code (lower d) - 87))%N) 0%N ds.

(** The UTF-8 encoding of a code point. *)
Definition utf8 (n : N) : chars :=
  Ascii.ascii_of_N <$>
    (if (n <? 128)%N then [n]
     else if (n <? 2048)%N then [192 + n / 64; 128 + n mod 64]
     else if (n <? 65536)%N then
       [224 + n / 4096; 128 + (n / 64) mod 64; 128 + n mod 64]
     else [240 + n / 262144; 128 + (n / 4096) mod 64; 128 + (n / 64) mod 64;
           128 + n mod 64])%N.

(** The code points that the numeric references 128 to 159 stand for. *)
Definition c1_replacements : list (N * N) :=
  [ (128, 8364); (130, 8218); (131, 402); (132, 8222); (133, 8230); (134, 8224);
    (135, 8225); (136, 710); (137, 8240); (138, 352); (139, 8249); (140, 338);
    (142, 381); (145, 8216); (146, 8217); (147, 8220); (148, 8221); (149, 8226);
    (150, 8211); (151, 8212); (152, 732); (153, 8482); (154, 353); (155, 8250);
    (156, 339); (158, 382); (159, 376) ]%N.

Definition reference_code_point (n : N) : N :=
  if (n =? 0)%N || (1114111 <? n)%N || (55296 <=? n)%N && (n <=? 57343)%N then 65533%N
  else match list_find (λ kv, kv.1 = n) c1_replacements with
       | Some (_, (_, m)) => m
       | None => n
       end.

(** The named references of the model: the name, the code point, and
    whether the semicolon may be missing. *)
Definition named_references : list (string * N * bool) :=
  [ ("amp", 38, true); ("lt", 60, true); ("gt", 62, true); ("quot", 34, true);
    ("nbsp", 160, true); ("apos", 39, false) ]%N.

(** The named reference [entry] is at the start of [s]: with its
    semicolon, or without it where that is allowed and neither [=] nor a
    letter or digit follows. *)
Definition named_at (s : chars) (entry : string * N * bool) : bool :=
  let '(name, _, legacy) := entry in
  bool_decide (unstr name `prefix_of` s)
  && match drop (String.length name) s with
     | r :: _ => eqc ";" r || legacy && negb (eqc "=" r || is_alpha r || is_digit r)
     | [] => legacy
     end.

(** A character reference at the start of [s], which follows an
    ampersand in an attribute value: what it stands for and how many
    characters of [s] it takes. *)
Definition reference_at (s : chars) : option (chars * nat) :=
  match s with
  | c :: s' =>
      if eqc "#" c then
        let hex := match s' with
                   | x :: _ => eqc "x" (lower x)
                   | [] => false
                   end in
        let body := if hex then drop 1 s' else s' in
        let '(ds, rest) := break (λ d, negb (if hex then is_hex d else is_digit d)) body in
        if bool_decide (ds = []) then None
        else
          let semicolon := match rest with
                           | r :: _ => eqc ";" r
                           | [] => false
                           end in
          Some (utf8 (reference_code_point (if hex then hex_value ds else digits_value ds)),
                1 + (if hex then 1 else 0) + length ds + (if semicolon then 1 else 0))
      else
        match list_find (λ entry, named_at s entry = true) named_references with
        | Some (_, (name, n, _)) =>
            Some (utf8 n,
                  String.length name
                  + match drop (String.length name) s with
                    | r :: _ => if eqc ";" r then 1 else 0
                    | [] => 0
                    end)
        | None => None
        end
  | [] => None
  end.

(** An attribute value with its character references decoded; [skip]
    characters are left to pass over. *)
Fixpoint decode (skip : nat) (s : chars) : chars :=
  match s with
  | [] => []
  | c :: s' =>
      match skip with
      | S k => decode k s'
      | 0 =>
          if eqc "&" c then
            match reference_at s' with
            | Some (text, n) => text ++ decode n s'
            | None => c :: decode 0 s'
            end
          else c :: decode 0 s'
      end
  end.

(** A tag being read: its name and the two attributes of interest, all
    reversed while they are read. *)
Record Tag : Type := MkTag {
  closing : bool;
  tag_name : chars;
  plain_href : option chars;
  xlink_href : option chars;
  xlink_last : bool;
}.

Inductive State : Type :=
  | Text
  | Raw (name : chars)                       (* in the text of [script] and the like *)
  | TagOpen                                  (* after [<] *)
  | EndTagOpen                               (* after [</] *)
  | Bang (dashes : nat)                      (* after [<!] and up to two dashes *)
  | Bogus                                    (* up to the next [>] *)
  | CommentStart (dashes : nat)
  | Comment (dashes : nat) (bang : bool)     (* dashes seen at the end so far *)
  | Name (t : Tag)
  | Attrs (t : Tag)
  | Slash (t : Tag)
  | AttrName (t : Tag) (name : chars)
  | AfterName (t : Tag) (name : chars)
  | BeforeValue (t : Tag) (name : chars)
  | Quoted (q : Ascii.ascii) (t : Tag) (name val : chars)
  | AfterValue (t : Tag)
  | Unquoted (t : Tag) (name val : chars).

(** The attribute [name] with value [val] (both reversed) of the tag
    [t] has been read. *)
Definition attribute (t : Tag) (name val : chars) : Tag :=
  let n := str (reverse name) in
  if String.eqb n "href" then
    match plain_href t with
    | Some _ => t
    | None => MkTag (closing t) (tag_name t) (Some (decode 0 (reverse val)))
                    (xlink_href t) false
    end
  else if String.eqb n "xlink:href" then
    match xlink_href t with
    | Some _ => t
    | None => MkTag (closing t) (tag_name t) (plain_href t)
                    (Some (decode 0 (reverse val))) true
    end
  else t.

Definition raw_text_elements : list string :=
  ["script"; "style"; "textarea"; "title"; "xmp"; "iframe"; "noembed"; "noframes"].

(** The start tags that end foreign content. *)
Definition breakout_elements : list string :=
  ["b"; "big"; "blockquote"; "body"; "br"; "center"; "code"; "dd"; "div"; "dl";
   "dt"; "em"; "embed"; "h1"; "h2"; "h3"; "h4"; "h5"; "h6"; "head"; "hr"; "i";
   "img"; "li"; "listing"; "menu"; "meta"; "nobr"; "ol"; "p"; "pre"; "ruby";
   "s"; "small"; "span"; "strong"; "strike"; "sub"; "sup"; "table"; "tt"; "u";
   "ul"; "var"].

Definition is_foreign_root (name : string) : bool :=
  String.eqb name "svg" || String.eqb name "math".

(** The [href] of an anchor, in foreign content or not. *)
Definition anchor_href (foreign : bool) (t : Tag) : option chars :=
  if foreign then
    match plain_href t, xlink_href t with
    | Some h, Some x => Some (if xlink_last t then x else h)
    | Some h, None => Some h
    | None, x => x
    end
  else plain_href t.

(** What the scanner carries along: whether it is in foreign content,
    and the values found so far. *)
Record Found : Type := MkFound { foreign : bool; hrefs : list string }.

(** The tag [t] is complete. *)
Definition finish (t : Tag) (self_closing : bool) (f : Found) : State * Found :=
  let name := str (reverse (tag_name t)) in
  if closing t then
    (Text, MkFound (if is_foreign_root name then false else foreign f) (hrefs f))
  else
    let found :=
      if String.eqb name "a" then
        match anchor_href (foreign f) t with
        | Some v => hrefs f ++ [str v]
        | None => hrefs f
        end
      else hrefs f in
    let foreign' :=
      if is_foreign_root name then negb self_closing
      else if bool_decide (name ∈ breakout_elements) then false
      else foreign f in
    (if negb (foreign f) && bool_decide (name ∈ raw_text_elements)
     then Raw (reverse (tag_name t)) else Text,
     MkFound foreign' found).

(** The text after [<] is the end tag of the raw text element [name]. *)
Definition ends_raw (name : chars) (s : chars) : bool :=
  match s with
  | c :: s' =>
      eqc "/" c
      && bool_decide (name = lower <$> take (length name) s')
      && match drop (length name) s' with
         | d :: _ => is_space d || eqc "/" d || eqc ">" d
         | [] => false
         end
  | [] => false
  end.

(** Before an attribute name: also where a character that ends nothing
    is read again. *)
Definition before_name (t : Tag) (c : Ascii.ascii) : State :=
  if is_space c then Attrs t
  else if eqc "/" c then Slash t
  else AttrName t [lower c].

Fixpoint scan (st : State) (s : chars) (f : Found) : Found :=
  match s with
  | [] => f
  | c :: s' =>
      match st with
      | Text => scan (if eqc "<" c then TagOpen else Text) s' f
      | Raw name =>
          scan (if eqc "<" c && ends_raw name s' then TagOpen else Raw name) s' f
      | TagOpen =>
          scan (if is_alpha c then Name (MkTag false [lower c] None None false)
                else if eqc "/" c then EndTagOpen
                else if eqc "!" c then Bang 0
                else if eqc "?" c then Bogus
                else if eqc "<" c then TagOpen
                else Text) s' f
      | EndTagOpen =>
          scan (if is_alpha c then Name (MkTag true [lower c] None None false)
                else if eqc ">" c then Text
                else Bogus) s' f
      | Bang dashes =>
          scan (if eqc "-" c then
                  match dashes with
                  | 0 => Bang 1
                  | _ => CommentStart 0
                  end
                else if eqc ">" c then Text
                else Bogus) s' f
      | Bogus => scan (if eqc ">" c then Text else Bogus) s' f
      | CommentStart dashes =>
          scan (if eqc "-" c then
                  match dashes with
                  | 0 => CommentStart 1
                  | _ => Comment 2 false
                  end
                else if eqc ">" c then Text
                else Comment 0 false) s' f
      | Comment dashes bang =>
          scan (if eqc "-" c then
                  if bang then Comment 1 false
                  else Comment (match dashes with 0 => 1 | _ => 2 end) false
                else if eqc ">" c && (2 <=? dashes) then Text
                else if eqc "!" c && (2 <=? dashes) && negb bang then Comment 2 true
                else Comment 0 false) s' f
      | Name t =>
          if eqc ">" c then let '(st', f') := finish t false f in scan st' s' f'
          else if is_space c then scan (Attrs t) s' f
          else if eqc "/" c then scan (Slash t) s' f
          else scan (Name (MkTag (closing t) (lower c :: tag_name t) None None false)) s' f
      | Attrs t =>
          if eqc ">" c then let '(st', f') := finish t false f in scan st' s' f'
          else scan (before_name t c) s' f
      | Slash t =>
          if eqc ">" c then let '(st', f') := finish t true f in scan st' s' f'
          else scan (before_name t c) s' f
      | AttrName t name =>
          if eqc ">" c then
            let '(st', f') := finish (attribute t name []) false f in scan st' s' f'
          else if eqc "=" c then scan (BeforeValue t name) s' f
          else if is_space c then scan (AfterName t name) s' f
          else if eqc "/" c then scan (Slash (attribute t name [])) s' f
          else scan (AttrName t (lower c :: name)) s' f
      | AfterName t name =>
          if eqc ">" c then
            let '(st', f') := finish (attribute t name []) false f in scan st' s' f'
          else if eqc "=" c then scan (BeforeValue t name) s' f
          else if is_space c then scan (AfterName t name) s' f
          else scan (before_name (attribute t name []) c) s' f
      | BeforeValue t name =>
          if eqc ">" c then
            let '(st', f') := finish (attribute t name []) false f in scan st' s' f'
          else if is_space c then scan (BeforeValue t name) s' f
          else if is_quote c then scan (Quoted c t name []) s' f
          else scan (Unquoted t name [c]) s' f
      | Quoted q t name val =>
          if Ascii.eqb q c then scan (AfterValue (attribute t name val)) s' f
          else scan (Quoted q t name (c :: val)) s' f
      | AfterValue t =>
          if eqc ">" c then let '(st', f') := finish t false f in scan st' s' f'
          else scan (before_name t c) s' f
      | Unquoted t name val =>
          if eqc ">" c then
            let '(st', f') := finish (attribute t name val) false f in scan st' s' f'
          else if is_space c then scan (Attrs (attribute t name val)) s' f
          else scan (Unquoted t name (c :: val)) s' f
      end
  end.

(** [$('a[href]')] followed by [.attr('href')] on each element. *)
Definition anchor_hrefs (html : string) : list string :=
  hrefs (scan Text (unstr html) (MkFound false [])).

End CheerioLite.

Definition lite : Platform := {|
  url_parse := WhatwgLite.url_parse;
  anchor_hrefs := CheerioLite.anchor_hrefs;
|}.

(** ** Definitions used to state the properties *)

Section Candidates.
Context `{Platform}.

(** The string is accepted by [new URL]. *)
Definition parses (s : string) : bool := bool_decide (is_Some (url_parse s None)).

(** The value [normalizeUrl] returns (it always returns one, see the
    properties of the normalizer). *)
Definition normalized (baseUrl href : string) : string :=
  match normalizeUrl href (Some baseUrl) with
  | Normal s => s
  | _ => href
  end.

(** The test of route.ts line 133 on a normalized URL. *)
Definition kept (u : string) : bool :=
  parses u && negb (JS.startsWith u "mailto:") && negb (JS.startsWith u "tel:").

(** The normalized URLs of a document that pass the test, in document
    order, repetitions included. *)
Definition candidates (html baseUrl : string) : list string :=
  filter (λ u, kept u = true)
    (normalized baseUrl <$> filter (λ h, JS.truthy h = true) (anchor_hrefs html)).

End Candidates.

(** What one turn of the [.each] callback does to the array with a URL
    that passed the test: push it unless it is there. *)
Definition push (links : list string) (u : string) : list string :=
  if decide (u ∈ links) then links else links ++ [u].

(** Deduplication by string equality that keeps the first occurrence of
    every string, as the specification words it. *)
Fixpoint dedup_first (l : list string) : list string :=
  match l with
  | [] => []
  | x :: l' => x :: filter (λ y, y ≠ x) (dedup_first l')
  end.

(** What [Promise.all] does to its array of values at one settlement
    that is not a rejection. *)
Definition stored {A} (values : list (option A)) (ev : Settlement A)
    : list (option A) :=
  match result ev with
  | Normal v => <[index ev := Some v]> values
  | _ => values
  end.

(** The settlement is a fulfilment. *)
Definition fulfils {A} (ev : Settlement A) : Prop := ∃ v, result ev = Normal v.

(** The same network with another order of settlement of the HEAD
    requests. *)
Definition reorder (f : nat → string → nat) (w : World) : World :=
  {| GET := GET w;
     HEAD := λ k url,
       let x := HEAD w k url in
       {| clock_before := clock_before x; clock_after := clock_after x;
          settle_order := f k url; settled := settled x |} |}.

(** The snippet that lists the given URLs, one anchor per URL. *)
Definition listing (urls : list string) : string :=
  "<!-- Cleaned Links from ClearOut.bio -->" +:+ JS.newline
  +:+ "<div class=" +:+ JS.dquote +:+ "bio-links" +:+ JS.dquote +:+ ">" +:+ JS.newline
  +:+ JS.join JS.newline
        ((λ u, "  <a href=" +:+ JS.dquote +:+ u +:+ JS.dquote
               +:+ " target=" +:+ JS.dquote +:+ "_blank" +:+ JS.dquote
               +:+ " rel=" +:+ JS.dquote +:+ "noopener noreferrer" +:+ JS.dquote
               +:+ ">" +:+ u +:+ "</a>") <$> urls)
  +:+ JS.newline +:+ "</div>".

(** [t] occurs in [s]. *)
Definition occurs_in (t s : string) : Prop := ∃ pre post, s = pre +:+ t +:+ post.

(** ** A bio page and its network, for the examples *)

Module Demo.

Definition pageUrl : string := "https://bio.example/me".

(** Five anchors: a link that answers 200, a root-relative one that
    answers 404, the first again, a mail address, and a
    protocol-relative one that redirects to a page answering 200. *)
Definition page : string :=
  "<div><a href='https://a.com/ok'>one</a> <a class=x href='/missing'>two</a>"
  +:+ " <a href='https://a.com/ok'>again</a> <a href='mailto:me@a.com'>mail</a>"
  +:+ " <a href='//b.org/old'>three</a></div>".

Definition empty_page : string := "<div><p>nothing to see</p></div>".

Definition answer (url : string) : Settled Response :=
  if String.eqb url "https://a.com/ok" then
    Fulfilled (MkResponse "https://a.com/ok" 200 "OK" (Normal ""))
  else if String.eqb url "https://bio.example/missing" then
    Fulfilled (MkResponse "https://bio.example/missing" 404 "" (Normal ""))
  else if String.eqb url "https://b.org/old" then
    Fulfilled (MkResponse "https://b.org/new" 200 "OK" (Normal ""))
  else Rejected (ErrorObject "TypeError" "fetch failed").

(** The later a request of a round is sent, the earlier it settles. *)
Definition net (html : string) : World :=
  {| GET := λ url, Fulfilled (MkResponse url 200 "OK" (Normal html));
     HEAD := λ k url, MkExchange 1000 (1200 - Z.of_nat k) (100 - k) (answer url) |}.

Definition request : NextRequest := MkRequest (Normal (JObj (VStr pageUrl))).

Definition scanned : ScanResult :=
  {| totalLinks := 3; workingLinks := 1; brokenLinks := 1; redirects := 1;
     links :=
       [ MkLinkResult "https://a.com/ok" "https://a.com/ok" 200 "OK" true false 200;
         MkLinkResult "https://bio.example/missing" "https://bio.example/missing"
                      404 "Not Found" false false 199;
         MkLinkResult "https://b.org/old" "https://b.org/new" 200 "OK" true true 198 ] |}.



End Demo.

(** ** The page: [src/app/page.tsx]

    Strings are held in UTF-8. *)

Module JSString.

(** The UTF-8 encodings of the code points that [trim] strips: the
    WhiteSpace and LineTerminator code points of ECMAScript. *)
Definition white_space : list (list Ascii.ascii) :=
  (λ w : list nat, Ascii.ascii_of_nat <$> w) <$>
    (([ [9]; [10]; [11]; [12]; [13]; [32]; [194; 160]; [225; 154; 128] ]
      ++ ((λ k : nat, [226; 128; 128 + k]) <$> seq 0 11)
      ++ [ [226; 128; 168]; [226; 128; 169]; [226; 128; 175]; [226; 129; 159];
           [227; 128; 128]; [239; 187; 191] ]) : list (list nat)).

(** Remove one sequence of [table] from the front of [s], if one is
    there. *)
Definition strip_one (table : list (list Ascii.ascii)) (s : list Ascii.ascii)
    : option (list Ascii.ascii) :=
  match list_find (λ w, w `prefix_of` s) table with
  | Some (_, w) => Some (drop (length w) s)
  | None => None
  end.

Fixpoint strip (fuel : nat) (table : list (list Ascii.ascii)) (s : list Ascii.ascii)
    : list Ascii.ascii :=
  match fuel with
  | 0 => s
  | S fuel' =>
      match strip_one table s with
      | Some s' => strip fuel' table s'
      | None => s
      end
  end.

(** [s.trim()] *)
Definition trim (s : string) : string :=
  let l := String.list_ascii_of_string s in
  let a := strip (length l) white_space l in
  String.string_of_list_ascii
    (reverse (strip (length a) (reverse <$> white_space) (reverse a))).

End JSString.

Module Page.

(** What the page shows of an element: the component or tag, its class
    and its text. *)
Record Element : Type := MkElement {
  component : string;
  className : string;
  text : string;
}.

(** [getStatusIcon], page.tsx lines 83-91 *)
Definition getStatusIcon (link : LinkResult) : Element :=
  if isWorking link && negb (isRedirect link) then
    MkElement "CheckCircle" "w-5 h-5 text-green-500" ""
  else if isRedirect link then
    MkElement "AlertTriangle" "w-5 h-5 text-yellow-500" ""
  else MkElement "XCircle" "w-5 h-5 text-red-500" "".

(** [getStatusLabel], page.tsx lines 93-101 *)
Definition getStatusLabel (link : LinkResult) : Element :=
  if isWorking link && negb (isRedirect link) then
    MkElement "span" "text-green-600 font-medium" "✅ Working"
  else if isRedirect link then
    MkElement "span" "text-yellow-600 font-medium" "⚠️ Redirect"
  else MkElement "span" "text-red-600 font-medium" "❌ Broken".

(** The colours of the HTTP status badge of a row, page.tsx lines
    313-319. *)
Definition status_badge (link : LinkResult) : string :=
  if ((status link >=? 200) && (status link <? 300))%Z then
    "bg-green-100 text-green-800"
  else if ((status link >=? 300) && (status link <? 400))%Z then
    "bg-yellow-100 text-yellow-800"
  else "bg-red-100 text-red-800".

(** The message above the table, page.tsx lines 249-259: the icon, the
    class of the box and the text. *)
Definition results_message (result : ScanResult) : Element :=
  if brokenLinks result =? 0 then
    MkElement "CheckCircle"
      "inline-flex items-center space-x-2 bg-green-50 text-green-800 px-6 py-3 rounded-xl border border-green-200"
      "🎉 No broken links found! Your bio page is clean."
  else
    MkElement "AlertTriangle"
      "inline-flex items-center space-x-2 bg-yellow-50 text-yellow-800 px-6 py-3 rounded-xl border border-yellow-200"
      ("Found " +:+ pretty (brokenLinks result) +:+ " issue"
       +:+ (if negb (brokenLinks result =? 1) then "s" else "")
       +:+ " that need attention").

(** The state of the component, page.tsx lines 25-28. [result] holds the
    JSON value that [setResult] stored. *)
Record Home : Type := MkHome {
  url : string;
  isScanning : bool;
  result : option ReplyBody;
  error : string;
}.

(** What [handleScan] reads of the response of [fetch]. *)
Record FetchResponse : Type := MkFetchResponse {
  ok : bool;
  json : Completion ReplyBody;
}.

(** [fetch('/api/scan-links', ..)] as a function of the [url] it posts. *)
Definition Api : Type := string → Completion FetchResponse.

(** [data.error]; a missing property is falsy under [||] like the empty
    string. *)
Definition data_error (data : ReplyBody) : string :=
  match data with
  | ErrorBody e => e
  | ScanBody _ => ""
  end.

(** The state after the three setters of lines 36-38. *)
Definition scan_started (st : Home) : Home :=
  {| url := url st; isScanning := true; result := None; error := "" |}.

(** The [try] block of [handleScan], lines 41-55. *)
Definition handleScan_try (api : Api) (st : Home) : Completion Home :=
  response ← api (JSString.trim (url st));
  data ← json response;
  if negb (ok response) then
    Abrupt (ErrorObject "Error" (JS.or_else (data_error data) "Failed to scan links"))
  else
    Normal {| url := url st; isScanning := isScanning st;
              result := Some data; error := error st |}.

(** The [catch] block, lines 56-57. *)
Definition handleScan_catch (st : Home) (err : Thrown) : Completion Home :=
  Normal {| url := url st; isScanning := isScanning st; result := result st;
            error := match err with
                     | ErrorObject _ message => message
                     | OtherValue _ => "An error occurred"
                     end |}.

(** [handleScan], lines 30-61: the state of the component once the
    handler has run. *)
Definition handleScan (api : Api) (st : Home) : Completion Home :=
  if negb (JS.truthy (JSString.trim (url st))) then
    Normal {| url := url st; isScanning := isScanning st; result := result st;
              error := "Please enter a valid URL" |}
  else
    st' ← try_catch (handleScan_try api (scan_started st))
                    (handleScan_catch (scan_started st));
    Normal {| url := url st'; isScanning := false; result := result st';
              error := error st' |}.

(** [disabled] of the scan button, line 179. *)
Definition scan_disabled (st : Home) : bool :=
  isScanning st || negb (JS.truthy (JSString.trim (url st))).

End Page.

Section Served.
Context `{Platform}.

(** The route handler behind [fetch('/api/scan-links', ..)]: the body
    [JSON.stringify({ url })] arrives as an object with that [url], and the
    reply of [NextResponse.json] comes back with [ok] for a status between
    200 and 299. *)
Definition served (w : World) : Page.Api := λ url,
  reply ← POST w (MkRequest (Normal (JObj (VStr url))));
  Normal {| Page.ok := ((200 <=? http_status reply) && (http_status reply <=? 299))%Z;
            Page.json := Normal (body reply) |}.

End Served.

(** The rows of the table by the label they carry. *)
Definition labelled (label : string) (ls : list LinkResult) : list LinkResult :=
  filter (λ l, Page.text (Page.getStatusLabel l) = label) ls.

(** A state of the page with a result on show, and one with only spaces
    typed in. *)
Module DemoPage.

Definition typed : Page.Home :=
  {| Page.url := "  https://bio.example/me "; Page.isScanning := false;
     Page.result := None; Page.error := "Invalid URL format" |}.

Definition blank : Page.Home :=
  {| Page.url := "   "; Page.isScanning := false;
     Page.result := Some (ScanBody Demo.scanned); Page.error := "" |}.

(** A network whose page answers 404, and one whose page fetch is
    aborted by its timer. *)
Definition not_found : World :=
  {| GET := λ url, Fulfilled (MkResponse url 404 "Not Found" (Normal "gone"));
     HEAD := HEAD (Demo.net "") |}.

Definition aborted : World :=
  {| GET := λ url, Rejected (ErrorObject "AbortError" "This operation was aborted");
     HEAD := HEAD (Demo.net "") |}.

(** Requests without a usable [url]. *)
Definition number_url : NextRequest := MkRequest (Normal (JObj (VNum 7))).
Definition null_body : NextRequest := MkRequest (Normal JNull).
Definition bad_url : NextRequest := MkRequest (Normal (JObj (VStr "not a url"))).

End DemoPage.

(** * Properties *)

(** ** Completions *)

Lemma bind_Normal {A B} (c : Completion A) (f : A → Completion B) (a : A) :
  c = Normal a → (c ≫= f) = f a.
Proof. by intros ->. Qed.

(** ** URL normalizer and link extractor *)

Section ServerFacts.
Context `{Platform}.

Lemma isValidUrl_parses (s : string) : isValidUrl s = Normal (parses s).
Proof.
  unfold isValidUrl, new_URL, parses.
  by destruct (url_parse s None).
Qed.

Lemma new_URL_settles (input : string) (base : option string) :
  new_URL input base ≠ Pending.
Proof. unfold new_URL. by destruct (url_parse input base). Qed.

Lemma normalizeUrl_body_settles (url : string) (baseUrl : option string) :
  normalizeUrl_body url baseUrl ≠ Pending.
Proof.
  unfold normalizeUrl_body, new_URL.
  repeat (case_match; simpl; try done).
Qed.

Lemma normalizeUrl_returns (url : string) (baseUrl : option string) :
  normalizeUrl url baseUrl =
  Normal (match normalizeUrl_body url baseUrl with
          | Normal s => s
          | _ => url
          end).
Proof.
  unfold normalizeUrl.
  pose proof (normalizeUrl_body_settles url baseUrl) as Hs.
  by destruct (normalizeUrl_body url baseUrl).
Qed.

(** C10: [normalizeUrl] returns a string for every href and every base
    (absent, empty or unparsable bases included) and never throws: it
    returns what the [try] block returns, and the href itself when a URL
    constructor throws in it. *)
Theorem normalizeUrl_total (url : string) (baseUrl : option string) :
  ∃ s, normalizeUrl url baseUrl = Normal s
       ∧ match normalizeUrl_body url baseUrl with
         | Normal s' => s = s'
         | Abrupt _ => s = url
         | Pending => False
         end.
Proof.
  rewrite normalizeUrl_returns.
  pose proof (normalizeUrl_body_settles url baseUrl) as Hs.
  destruct (normalizeUrl_body url baseUrl) as [s|e|].
  - by exists s.
  - by exists url.
  - done.
Qed.

Lemma normalizeUrl_normalized (baseUrl href : string) :
  normalizeUrl href (Some baseUrl) = Normal (normalized baseUrl href).
Proof.
  unfold normalized. rewrite normalizeUrl_returns.
  by destruct (normalizeUrl_body href (Some baseUrl)).
Qed.

Lemma extractLinks_step_spec (baseUrl : string) (links : list string) (href : string) :
  extractLinks_step baseUrl links href =
  Normal (if JS.truthy href && kept (normalized baseUrl href)
          then push links (normalized baseUrl href) else links).
Proof.
  unfold extractLinks_step, kept, push, JS.includes.
  destruct (JS.truthy href); [|done].
  rewrite (bind_Normal _ _ _ (normalizeUrl_normalized baseUrl href)).
  rewrite (bind_Normal _ _ _ (isValidUrl_parses _)). simpl.
  destruct (parses _ && _ && _); [|done].
  case_decide.
  - by rewrite bool_decide_eq_true_2.
  - by rewrite bool_decide_eq_false_2.
Qed.

Lemma each_extractLinks_step (baseUrl : string) (hrefs links : list string) :
  each (extractLinks_step baseUrl) hrefs links =
  Normal (foldl push links
    (filter (λ u, kept u = true)
       (normalized baseUrl <$> filter (λ h, JS.truthy h = true) hrefs))).
Proof.
  revert links. induction hrefs as [|h hrefs IH]; intros links; [done|].
  cbn [each]. rewrite extractLinks_step_spec. simpl.
  rewrite IH. f_equal.
  rewrite filter_cons. destruct (JS.truthy h) eqn:Ht; simpl.
  - rewrite filter_cons. by destruct (kept _).
  - done.
Qed.

End ServerFacts.

Lemma filter_dedup_first_notin (acc l : list string) (c : string) :
  c ∈ acc →
  filter (λ y, y ∉ acc) (filter (λ y, y ≠ c) l) = filter (λ y, y ∉ acc) l.
Proof.
  intros Hc. rewrite list_filter_filter. apply list_filter_iff.
  intros y. split; [tauto|]. intros Hy. split; [done|]. by intros ->.
Qed.

Lemma filter_notin_snoc (acc l : list string) (c : string) :
  filter (λ y, y ∉ acc ++ [c]) l = filter (λ y, y ∉ acc) (filter (λ y, y ≠ c) l).
Proof.
  rewrite list_filter_filter. apply list_filter_iff.
  intros y. rewrite elem_of_app, list_elem_of_singleton. tauto.
Qed.

(** The loop that pushes what is not yet in the array computes the
    first-occurrence deduplication. *)
Lemma foldl_push_dedup_first (cs acc : list string) :
  foldl push acc cs = acc ++ filter (λ y, y ∉ acc) (dedup_first cs).
Proof.
  revert acc. induction cs as [|c cs IH]; intros acc; simpl.
  - by rewrite app_nil_r.
  - unfold push at 2. rewrite filter_cons. case_decide as Hc.
    + rewrite decide_False by tauto.
      by rewrite IH, filter_dedup_first_notin.
    + rewrite decide_True by done.
      by rewrite IH, <- app_assoc, filter_notin_snoc.
Qed.

Lemma dedup_first_subseteq (l : list string) : dedup_first l ⊆ l.
Proof.
  induction l as [|x l IH]; simpl; [done|].
  intros y. rewrite !elem_of_cons, list_elem_of_filter.
  intros [->|[_ Hy]]; [by left | right; by apply IH].
Qed.

Lemma dedup_first_elem_of (l : list string) (x : string) :
  x ∈ dedup_first l ↔ x ∈ l.
Proof.
  split; [apply dedup_first_subseteq|].
  induction l as [|y l IH]; simpl; [done|].
  rewrite !elem_of_cons, list_elem_of_filter.
  intros [->|Hx]; [by left|].
  destruct (decide (x = y)) as [->|Hne]; [by left | right; auto].
Qed.

Lemma NoDup_dedup_first (l : list string) : NoDup (dedup_first l).
Proof.
  induction l as [|x l IH]; simpl; [constructor|].
  constructor.
  - rewrite list_elem_of_filter. tauto.
  - by apply NoDup_filter.
Qed.

Lemma filter_notin_nil (l : list string) : filter (λ y, y ∉ []) l = l.
Proof.
  induction l as [|x l IH]; [done|].
  rewrite filter_cons_True; [by f_equal | apply not_elem_of_nil].
Qed.

Lemma dedup_first_foldl_push (l : list string) : dedup_first l = foldl push [] l.
Proof. rewrite foldl_push_dedup_first. simpl. by rewrite filter_notin_nil. Qed.

(** A string keeps the place of its first occurrence: what precedes it in
    the result are the distinct strings that precede it in the input. *)
Lemma dedup_first_app (l1 l2 : list string) :
  dedup_first (l1 ++ l2) =
  dedup_first l1 ++ filter (λ y, y ∉ l1) (dedup_first l2).
Proof.
  rewrite (dedup_first_foldl_push (l1 ++ l2)), foldl_app.
  rewrite <- dedup_first_foldl_push, foldl_push_dedup_first. f_equal.
  apply list_filter_iff. intros y. by rewrite dedup_first_elem_of.
Qed.

Section ExtractorFacts.
Context `{Platform}.

Lemma kept_not_mail_or_phone (u : string) :
  kept u = true →
  JS.startsWith u "mailto:" = false ∧ JS.startsWith u "tel:" = false.
Proof.
  unfold kept. rewrite !andb_true_iff, !negb_true_iff. tauto.
Qed.

(** C8: for every document and base URL, [extractLinks] returns the
    normalized URLs that pass the test, deduplicated by string equality
    with the first occurrence of each kept in document order; the
    result has no duplicates and no entry starting with [mailto:] or
    [tel:]. *)
Theorem extractLinks_unique (html baseUrl : string) :
  ∃ links,
    extractLinks html baseUrl = Normal links
    ∧ links = dedup_first (candidates html baseUrl)
    ∧ NoDup links
    ∧ Forall (λ u, JS.startsWith u "mailto:" = false
                   ∧ JS.startsWith u "tel:" = false) links.
Proof.
  exists (dedup_first (candidates html baseUrl)).
  split; [|split; [done|split]].
  - unfold extractLinks. rewrite each_extractLinks_step.
    by rewrite <- dedup_first_foldl_push.
  - apply NoDup_dedup_first.
  - apply Forall_forall. intros u Hu.
    apply dedup_first_subseteq in Hu. unfold candidates in Hu.
    apply list_elem_of_filter in Hu as [Hk _].
    by apply kept_not_mail_or_phone.
Qed.

End ExtractorFacts.

(** C7: the examples of the specification. On the concrete platform,
    ["/path"] against ["https://a.com/x"] gives ["https://a.com/path"] and
    ["rel"] against ["https://a.com/x/y"] gives ["https://a.com/x/rel"]; on
    every platform and against every base (or none), ["//a.com/p"] gives
    ["https://a.com/p"]. *)
Theorem normalizeUrl_examples :
  @normalizeUrl lite "/path" (Some "https://a.com/x") = Normal "https://a.com/path"
  ∧ (∀ (P : Platform) (base : option string),
       @normalizeUrl P "//a.com/p" base = Normal "https://a.com/p")
  ∧ @normalizeUrl lite "rel" (Some "https://a.com/x/y") = Normal "https://a.com/x/rel".
Proof.
  split; [by vm_compute|]. split; [|by vm_compute].
  intros P base. reflexivity.
Qed.

(** The two examples that go through [new URL] hold on every platform
    whose parser gives the origin and the resolved reference that the
    URL Standard prescribes for them. *)
Lemma normalizeUrl_examples_any_platform (P : Platform) (base rel : URL) :
  @url_parse P "https://a.com/x" None = Some base →
  origin base = "https://a.com" →
  @url_parse P "rel" (Some "https://a.com/x/y") = Some rel →
  href rel = "https://a.com/x/rel" →
  @normalizeUrl P "/path" (Some "https://a.com/x") = Normal "https://a.com/path"
  ∧ @normalizeUrl P "rel" (Some "https://a.com/x/y") = Normal "https://a.com/x/rel".
Proof.
  intros Hb Ho Hr Hh.
  unfold normalizeUrl, normalizeUrl_body, new_URL. simpl.
  rewrite Hb, Hr. simpl. by rewrite Ho, Hh.
Qed.

(** ** Link prober *)

Lemma checkLink_run_total (x : Exchange) (url : string) :
  ∃ r, checkLink_run x url = Normal r ∧ originalUrl r = url.
Proof.
  unfold checkLink_run. destruct (settled x); simpl; eauto.
Qed.




(** On a response, [isRedirect] compares the URL of the response with the
    probed one. *)
Lemma checkLink_response (x : Exchange) (url : string) (response : Response) :
  settled x = Fulfilled response →
  ∃ r, checkLink_run x url = Normal r
       ∧ finalUrl r = JS.or_else (resp_url response) url
       ∧ (isRedirect r = true ↔ resp_url response ≠ url)
       ∧ (isWorking r = true ↔ (200 ≤ resp_status response < 400)%Z).
Proof.
  intros Hx. unfold checkLink_run. rewrite Hx. simpl.
  eexists. split; [done|]. simpl. split; [done|]. split.
  - unfold JS.strict_ne. rewrite negb_true_iff.
    destruct (String.eqb_spec (resp_url response) url); split; congruence.
  - rewrite andb_true_iff. lia.
Qed.

(** C3: for every probe that gets a response (a response of [fetch]
    carries the URL it was served from, which is never empty), the final
    URL of the result is the URL of the response, and the result is
    flagged as a redirect exactly when its final URL is not, character
    for character, the probed URL. *)
Theorem checkLink_isRedirect (x : Exchange) (url : string) (response : Response) :
  settled x = Fulfilled response →
  resp_url response ≠ "" →
  ∃ r, checkLink_run x url = Normal r
       ∧ originalUrl r = url
       ∧ finalUrl r = resp_url response
       ∧ (isRedirect r = true ↔ finalUrl r ≠ url)
       ∧ (isRedirect r = false ↔ finalUrl r = url).
Proof.
  intros Hx Hu.
  destruct (checkLink_response x url response Hx) as (r & Hr & Hf & Hi & _).
  destruct (checkLink_run_total x url) as (r' & Hr' & Ho).
  rewrite Hr in Hr'. injection Hr' as <-.
  assert (Hfinal : finalUrl r = resp_url response).
  { rewrite Hf. unfold JS.or_else, JS.truthy.
    by destruct (String.eqb_spec (resp_url response) ""). }
  exists r. split; [done|]. split; [done|]. split; [done|].
  rewrite Hfinal. split; [done|].
  destruct (isRedirect r); split; try done.
  - intros Heq. by apply Hi in Heq.
  - intros _. destruct (decide (resp_url response = url)) as [|Hne]; [done|].
    by apply Hi in Hne.
Qed.

Lemma checkLink_isRedirect_witness :
  ∃ r, checkLink_run (HEAD (Demo.net Demo.page) 2 "https://b.org/old")
         "https://b.org/old" = Normal r
       ∧ finalUrl r = "https://b.org/new"
       ∧ isRedirect r = true.
Proof.
  destruct (checkLink_isRedirect (HEAD (Demo.net Demo.page) 2 "https://b.org/old")
              "https://b.org/old" _ eq_refl)
    as (r & Hr & _ & Hf & Hi & _); [discriminate|].
  exists r. split; [exact Hr|]. split; [exact Hf|].
  apply Hi. rewrite Hf. discriminate.
Defined.

(** ** [Promise.all] *)

Section PromiseAll.
Context {A : Type}.
Implicit Types (events : list (Settlement A)) (values : list (option A)).
Implicit Types (ps : list (Promise A)) (vs : list A).

Lemma promise_all_run_fulfilled events values remaining :
  Forall fulfils events →
  promise_all_run events values remaining =
  promise_all_run [] (foldl stored values events) (remaining - length events).
Proof.
  intros Hall. revert values remaining.
  induction Hall as [|ev events [v Hv] _ IH]; intros values remaining.
  - simpl. by rewrite Nat.sub_0_r.
  - cbn [promise_all_run foldl length]. unfold stored at 2. rewrite Hv.
    rewrite IH. simpl.
    by replace (remaining - 1 - length events) with (remaining - S (length events)) by lia.
Qed.

Lemma length_foldl_stored events values :
  length (foldl stored values events) = length values.
Proof.
  revert values. induction events as [|ev events IH]; intros values; [done|].
  simpl. rewrite IH. unfold stored. destruct (result ev); [|done..].
  apply length_insert.
Qed.

Lemma foldl_stored_untouched events values (j : nat) :
  j ∉ index <$> events →
  foldl stored values events !! j = values !! j.
Proof.
  revert values. induction events as [|ev events IH]; intros values Hj; [done|].
  rewrite fmap_cons, not_elem_of_cons in Hj. destruct Hj as [Hne Hj].
  simpl. rewrite IH by done. unfold stored.
  destruct (result ev); [|done..]. by apply list_lookup_insert_ne.
Qed.

Lemma foldl_stored_lookup events values (ev : Settlement A) (v : A) :
  NoDup (index <$> events) →
  ev ∈ events →
  result ev = Normal v →
  index ev < length values →
  foldl stored values events !! index ev = Some (Some v).
Proof.
  revert values. induction events as [|ev' events IH]; intros values Hnd Hin Hv Hlt.
  - by apply elem_of_nil in Hin.
  - rewrite fmap_cons in Hnd. apply NoDup_cons in Hnd as [Hfresh Hnd].
    apply elem_of_cons in Hin as [<-|Hin]; simpl.
    + rewrite foldl_stored_untouched by done.
      unfold stored. rewrite Hv. by apply list_lookup_insert_eq.
    + apply IH; try done.
      unfold stored. destruct (result ev'); [|done..]. by rewrite length_insert.
Qed.

(** Whatever the order of the settlements, when every promise fulfils,
    [Promise.all] fulfils with the values in the order of the promises. *)
Lemma promise_all_fulfilled ps vs :
  outcome <$> ps = Normal <$> vs →
  promise_all ps = Normal vs.
Proof.
  intros Hps. unfold promise_all, settlements.
  set (E0 := imap (λ i p, MkSettlement (settles_at p) i (outcome p)) ps).
  pose proof (merge_sort_Permutation earlier E0) as Hperm.
  assert (Hlen : length ps = length vs).
  { by rewrite <- (length_fmap outcome ps), Hps, length_fmap. }
  assert (Hlook : ∀ j v, vs !! j = Some v →
            MkSettlement (default 0 (settles_at <$> ps !! j)) j (Normal v) ∈ E0).
  { intros j v Hv. apply list_elem_of_lookup. exists j. unfold E0.
    rewrite list_lookup_imap.
    assert (Hj : (outcome <$> ps) !! j = Some (Normal v)).
    { by rewrite Hps, list_lookup_fmap, Hv. }
    rewrite list_lookup_fmap in Hj.
    destruct (ps !! j) as [p|]; simpl in *; [|done].
    injection Hj as ->. done. }
  assert (Hall : Forall fulfils (merge_sort earlier E0)).
  { rewrite Hperm. apply Forall_forall. intros ev Hev.
    apply list_elem_of_lookup in Hev as [j Hj]. unfold E0 in Hj.
    rewrite list_lookup_imap in Hj.
    destruct (ps !! j) as [p|] eqn:Hp; simpl in Hj; [|done].
    injection Hj as <-.
    assert (Hj : (outcome <$> ps) !! j = Some (outcome p)).
    { by rewrite list_lookup_fmap, Hp. }
    rewrite Hps, list_lookup_fmap in Hj.
    destruct (vs !! j) as [v|]; simpl in Hj; [|done].
    exists v. simpl. by injection Hj as ->. }
  assert (Hidx : NoDup (index <$> merge_sort earlier E0)).
  { rewrite Hperm. unfold E0. rewrite fmap_imap.
    rewrite (imap_ext _ (λ i _, i)) by done.
    rewrite imap_seq_0, list_fmap_id. apply NoDup_seq. }
  rewrite promise_all_run_fulfilled by done.
  rewrite (Permutation_length Hperm). unfold E0 at 2.
  rewrite length_imap, Nat.sub_diag. simpl.
  assert (Hvals : foldl stored (replicate (length ps) None) (merge_sort earlier E0)
                  = Some <$> vs).
  { apply list_eq. intros j. rewrite list_lookup_fmap.
    destruct (vs !! j) as [v|] eqn:Hv; simpl.
    - specialize (Hlook j v Hv). rewrite <- Hperm in Hlook.
      apply (foldl_stored_lookup _ (replicate (length ps) None) _ v Hidx Hlook eq_refl).
      rewrite length_replicate, Hlen. simpl. by eapply lookup_lt_Some.
    - apply lookup_ge_None. rewrite length_foldl_stored, length_replicate, Hlen.
      by apply lookup_ge_None. }
  rewrite Hvals. by rewrite (mapM_fmap_Some id Some vs).
Qed.

End PromiseAll.

(** ** Batch scheduler *)

Lemma probes_return (f : nat → string → Exchange) (l : list string) :
  ∃ rs, imap (λ k u, checkLink_run (f k u) u) l = Normal <$> rs.
Proof.
  revert f. induction l as [|u l IH]; intros f.
  - by exists [].
  - destruct (checkLink_run_total (f 0 u) u) as (r & Hr & _).
    destruct (IH (f ∘ S)) as [rs Hrs].
    exists (r :: rs). rewrite imap_cons, fmap_cons, Hr. f_equal. exact Hrs.
Qed.

Lemma probes_keep_urls (f : nat → string → Exchange) (l : list string)
    (rs : list LinkResult) :
  Normal <$> rs = imap (λ k u, checkLink_run (f k u) u) l →
  originalUrl <$> rs = l.
Proof.
  intros Hrs. apply list_eq. intros j.
  assert (Hj : (Normal <$> rs) !! j = imap (λ k u, checkLink_run (f k u) u) l !! j)
    by by rewrite Hrs.
  rewrite list_lookup_fmap, list_lookup_imap in Hj. rewrite list_lookup_fmap.
  destruct (rs !! j) as [r|], (l !! j) as [u|]; simpl in *; try done.
  destruct (checkLink_run_total (f j u) u) as (r' & Hr' & Hu).
  rewrite Hr' in Hj. by simplify_eq.
Qed.

(** One round: the promises of a batch all fulfil, so [Promise.all] gives
    their values in the order of the batch. *)
Lemma probe_round (f : nat → string → Exchange) (batch : list string)
    (rs : list LinkResult) :
  imap (λ k u, checkLink_run (f k u) u) batch = Normal <$> rs →
  promise_all (imap (λ k link, checkLink (f k link) link) batch) = Normal rs.
Proof.
  intros Hrs. apply promise_all_fulfilled.
  rewrite fmap_imap, <- Hrs. by apply imap_ext.
Qed.

Lemma imap_take_drop {B} (g : nat → string → B) (n : nat) (l : list string) :
  imap g (take n l) ++ imap (λ k, g (n + k)) (drop n l) = imap g l.
Proof.
  destruct (decide (n ≤ length l)) as [Hle|Hgt].
  - rewrite <- (take_drop n l) at 3. rewrite imap_app.
    by rewrite length_take, Nat.min_l.
  - rewrite take_ge, drop_ge by lia. simpl. by rewrite app_nil_r.
Qed.

Lemma probe_from_spec (w : World) (urls : list string) (fuel i : nat) (st : Probing) :
  length urls ≤ i + fuel →
  ∃ rs rnds,
    probe_from w urls fuel i st =
      Normal {| linkResults := linkResults st ++ rs; rounds := rounds st ++ rnds |}
    ∧ Normal <$> rs = imap (λ k u, checkLink_run (HEAD w (i + k) u) u) (drop i urls)
    ∧ concat rnds = drop i urls
    ∧ Forall (λ b, 0 < length b ≤ maxConcurrent) rnds.
Proof.
  revert i st. induction fuel as [|fuel IH]; intros i st Hfuel.
  - exists [], []. rewrite drop_ge by lia.
    destruct st as [lr rn]. simpl.
    rewrite (proj2 (Nat.ltb_ge i (length urls))) by lia.
    by rewrite !app_nil_r.
  - destruct (decide (i < length urls)) as [Hlt|Hge].
    + cbn [probe_from]. rewrite (proj2 (Nat.ltb_lt i (length urls))) by done.
      unfold JS.slice.
      replace (i + maxConcurrent - i) with maxConcurrent by lia.
      set (l := drop i urls).
      set (batch := take maxConcurrent l).
      destruct (probes_return (λ k u, HEAD w (i + k) u) batch) as [brs Hbrs].
      rewrite (bind_Normal _ _ brs) by by apply (probe_round (λ k u, HEAD w (i + k) u)).
      destruct (IH (i + maxConcurrent)
                  {| linkResults := linkResults st ++ brs;
                     rounds := rounds st ++ [batch] |}) as (rs & rnds & -> & Hrs & Hcat & Hall).
      { unfold maxConcurrent. lia. }
      cbn [linkResults rounds].
      exists (brs ++ rs), (batch :: rnds).
      assert (Hdrop : drop (i + maxConcurrent) urls = drop maxConcurrent l).
      { unfold l. by rewrite drop_drop. }
      split; [by rewrite <- !app_assoc|]. split; [|split].
      * rewrite fmap_app, Hrs, <- Hbrs, Hdrop.
        rewrite <- (imap_take_drop _ maxConcurrent l). f_equal.
        apply imap_ext. intros k u _. by rewrite Nat.add_assoc.
      * simpl. rewrite Hcat, Hdrop. apply take_drop.
      * constructor; [|done]. unfold batch, l.
        rewrite length_take, length_drop. unfold maxConcurrent. lia.
    + exists [], []. rewrite drop_ge by lia.
      destruct st as [lr rn]. cbn [probe_from].
      rewrite (proj2 (Nat.ltb_ge i (length urls))) by lia.
      by rewrite !app_nil_r.
Qed.

(** The order in which the probes settle does not show in what the loop
    computes. *)
Lemma probe_from_reorder (g : nat → string → nat) (w : World) (urls : list string)
    (fuel i : nat) (st : Probing) :
  probe_from (reorder g w) urls fuel i st = probe_from w urls fuel i st.
Proof.
  revert i st. induction fuel as [|fuel IH]; intros i st; [done|].
  cbn [probe_from]. destruct (i <? length urls); [|done].
  set (batch := JS.slice i (i + maxConcurrent) urls).
  destruct (probes_return (λ k u, HEAD w (i + k) u) batch) as [brs Hbrs].
  rewrite (bind_Normal _ _ brs) by
    by apply (probe_round (λ k u, HEAD (reorder g w) (i + k) u)).
  rewrite (bind_Normal _ _ brs) by by apply (probe_round (λ k u, HEAD w (i + k) u)).
  apply IH.
Qed.

(** C4: for every sequence of URLs the scheduler returns, whatever the
    order in which the probes settle, one result per URL: the result at
    each position is the one of the probe of the URL at that position, so
    the lengths agree and the original URLs of the results are the input;
    the requests go out in rounds that split the input into consecutive
    chunks of one to ten URLs. *)
Theorem probeAll_in_order (w : World) (urls : list string) :
  ∃ st,
    probeAll w urls = Normal st
    ∧ Normal <$> linkResults st = imap (λ k u, checkLink_run (HEAD w k u) u) urls
    ∧ length (linkResults st) = length urls
    ∧ originalUrl <$> linkResults st = urls
    ∧ concat (rounds st) = urls
    ∧ Forall (λ b, 0 < length b ≤ 10) (rounds st)
    ∧ ∀ g, probeAll (reorder g w) urls = Normal st.
Proof.
  destruct (probe_from_spec w urls (length urls) 0 (MkProbing [] []))
    as (rs & rnds & Hrun & Hrs & Hcat & Hall); [lia|].
  simpl in Hrun, Hrs, Hcat.
  assert (Hurls : originalUrl <$> rs = urls) by by eapply probes_keep_urls.
  eexists. split; [exact Hrun|]. simpl.
  split; [done|]. split; [by rewrite <- (length_fmap originalUrl rs), Hurls|].
  split; [done|]. split; [done|]. split; [done|].
  intros g. unfold probeAll. by rewrite probe_from_reorder.
Qed.

(** The rounds of the example page: three probes that settle in the
    reverse of the order in which they were sent. *)
Example probeAll_staggered :
  ∃ st, probeAll (Demo.net Demo.page)
          ["https://a.com/ok"; "https://bio.example/missing"; "https://b.org/old"]
        = Normal st
        ∧ linkResults st = links Demo.scanned
        ∧ rounds st = [["https://a.com/ok"; "https://bio.example/missing";
                        "https://b.org/old"]].
Proof. eexists. split; [by vm_compute|]. done. Qed.

(** ** Scan orchestrator *)

Lemma bind_Normal_inv {A B} (c : Completion A) (f : A → Completion B) (b : B) :
  (c ≫= f) = Normal b → ∃ a, c = Normal a ∧ f a = Normal b.
Proof. destruct c as [a| |]; simpl; [eauto|done..]. Qed.

Lemma length_filter_zero {A} (P : A → Prop) `{∀ x, Decision (P x)} (l : list A) :
  length (filter P l) = 0 ↔ Forall (λ x, ¬ P x) l.
Proof.
  induction l as [|x l IH]; [by split|].
  rewrite filter_cons, Forall_cons. case_decide; simpl.
  - split; [done | tauto].
  - rewrite IH. tauto.
Qed.

(** The three counts of [summarize] split the results. *)
Lemma summarize_counts (lrs : list LinkResult) :
  workingLinks (summarize lrs) + redirects (summarize lrs) + brokenLinks (summarize lrs)
  = length lrs.
Proof.
  unfold summarize. cbn [workingLinks redirects brokenLinks].
  induction lrs as [|l lrs IH]; [done|].
  rewrite !filter_cons.
  destruct (isWorking l), (isRedirect l); simpl; lia.
Qed.

Lemma summarize_words (lrs : list LinkResult) :
  workingLinks (summarize lrs)
    = length (filter (λ l, isWorking l = true ∧ isRedirect l = false) lrs)
  ∧ redirects (summarize lrs)
    = length (filter (λ l, isWorking l = true ∧ isRedirect l = true) lrs)
  ∧ brokenLinks (summarize lrs)
    = length (filter (λ l, isWorking l = false) lrs).
Proof.
  unfold summarize. cbn [workingLinks redirects brokenLinks].
  split; [|split]; f_equal; apply list_filter_iff; intros l;
    destruct (isWorking l), (isRedirect l); simpl; intuition congruence.
Qed.

Section EndpointFacts.
Context `{Platform}.

Lemma POST_catch_error (e : Thrown) :
  ∃ msg code, POST_catch e = Normal (MkReply (ErrorBody msg) code).
Proof.
  destruct e as [name msg|shown]; simpl; [|eauto].
  destruct (String.eqb name "AbortError"); eauto.
Qed.

(** A reply that carries a scan result is the all-zero one or the summary
    of what the scheduler returned. *)
Lemma POST_scan (w : World) (request : NextRequest) (reply : NextResponse)
    (r : ScanResult) :
  POST w request = Normal reply →
  body reply = ScanBody r →
  http_status reply = 200%Z
  ∧ (r = MkScanResult 0 0 0 0 []
     ∨ ∃ urls st, probeAll w urls = Normal st ∧ r = summarize (linkResults st)).
Proof.
  unfold POST. intros Hpost Hbody.
  destruct (POST_body w request) as [reply'|e|] eqn:Hrun; simpl in Hpost.
  2:{ destruct (POST_catch_error e) as (msg & code & He).
      rewrite He in Hpost. by simplify_eq. }
  2:{ done. }
  simplify_eq. unfold POST_body in Hrun.
  apply bind_Normal_inv in Hrun as (parsed & _ & Hrun).
  apply bind_Normal_inv in Hrun as (url & _ & Hrun).
  destruct url as [| | | |url|]; try by simplify_eq.
  destruct (js_not (VStr url)); [by simplify_eq|].
  apply bind_Normal_inv in Hrun as (valid & _ & Hrun).
  destruct valid; simpl in Hrun; [|by simplify_eq].
  apply bind_Normal_inv in Hrun as (response & _ & Hrun).
  destruct (resp_ok response); simpl in Hrun; [|by simplify_eq].
  apply bind_Normal_inv in Hrun as (html & _ & Hrun).
  apply bind_Normal_inv in Hrun as (extracted & _ & Hrun).
  destruct (length extracted =? 0).
  - simplify_eq. simpl in Hbody. simplify_eq. auto.
  - apply bind_Normal_inv in Hrun as (st & Hst & Hrun).
    simplify_eq. simpl in Hbody. simplify_eq. split; [done|]. right. eauto.
Qed.

(** C6: in every scan result the endpoint returns, [workingLinks] counts
    the results that work and are not redirects, [redirects] those that
    work and are redirects, [brokenLinks] those that do not work, and the
    three add up to [totalLinks]. *)
Theorem POST_three_buckets (w : World) (request : NextRequest)
    (reply : NextResponse) (r : ScanResult) :
  POST w request = Normal reply →
  body reply = ScanBody r →
  workingLinks r
    = length (filter (λ l, isWorking l = true ∧ isRedirect l = false) (links r))
  ∧ redirects r
    = length (filter (λ l, isWorking l = true ∧ isRedirect l = true) (links r))
  ∧ brokenLinks r = length (filter (λ l, isWorking l = false) (links r))
  ∧ workingLinks r + redirects r + brokenLinks r = totalLinks r.
Proof.
  intros Hpost Hbody.
  destruct (POST_scan w request reply r Hpost Hbody) as [_ [->|(urls & st & _ & ->)]].
  - done.
  - pose proof (summarize_words (linkResults st)) as (Hw & Hr & Hb).
    pose proof (summarize_counts (linkResults st)) as Hsum.
    done.
Qed.

(** C1, as the code has it: in every scan result the endpoint returns,
    [totalLinks] is the length of [links], and [workingLinks] and
    [brokenLinks] add up to [totalLinks] less [redirects]; they add up
    to [totalLinks] exactly when no link is a working redirect. *)
Theorem POST_totals (w : World) (request : NextRequest)
    (reply : NextResponse) (r : ScanResult) :
  POST w request = Normal reply →
  body reply = ScanBody r →
  totalLinks r = length (links r)
  ∧ redirects r ≤ totalLinks r
  ∧ workingLinks r + brokenLinks r = totalLinks r - redirects r
  ∧ (workingLinks r + brokenLinks r = totalLinks r
     ↔ Forall (λ l, ¬ (isWorking l = true ∧ isRedirect l = true)) (links r)).
Proof.
  intros Hpost Hbody.
  destruct (POST_scan w request reply r Hpost Hbody) as [_ [->|(urls & st & _ & ->)]].
  - simpl. split; [done|]. split; [done|]. split; [done|].
    split; [constructor | done].
  - pose proof (summarize_words (linkResults st)) as (_ & Hr & _).
    pose proof (summarize_counts (linkResults st)) as Hsum.
    pose proof (length_filter_zero
      (λ l, isWorking l = true ∧ isRedirect l = true) (linkResults st)) as Hz.
    rewrite <- Hr in Hz.
    change (totalLinks (summarize (linkResults st))) with (length (linkResults st)).
    change (links (summarize (linkResults st))) with (linkResults st).
    rewrite <- Hz. lia.
Qed.

(** C9: when the body names a URL that parses, the page is fetched with a
    success status and its text is read, and no link is extracted from
    it, the endpoint answers 200 with the scan result whose four counts
    are zero and whose list of links is empty. *)
Theorem POST_no_links (w : World) (request : NextRequest) (url html : string)
    (response : Response) :
  req_json request = Normal (JObj (VStr url)) →
  JS.truthy url = true →
  parses url = true →
  GET w url = Fulfilled response →
  resp_ok response = true →
  resp_text response = Normal html →
  extractLinks html url = Normal [] →
  POST w request = Normal (MkReply (ScanBody (MkScanResult 0 0 0 0 [])) 200).
Proof.
  intros Hreq Hurl Hparse Hget Hok Htext Hlinks.
  unfold POST, POST_body. rewrite Hreq. simpl. rewrite Hurl. simpl.
  rewrite isValidUrl_parses, Hparse. simpl.
  rewrite Hget. simpl. rewrite Hok. simpl. rewrite Htext. simpl.
  by rewrite Hlinks.
Qed.

End EndpointFacts.

Lemma POST_three_buckets_witness :
  @POST lite (Demo.net Demo.page) Demo.request
    = Normal (MkReply (ScanBody Demo.scanned) 200)
  ∧ workingLinks Demo.scanned + redirects Demo.scanned + brokenLinks Demo.scanned
    = totalLinks Demo.scanned.
Proof.
  assert (Hrun : @POST lite (Demo.net Demo.page) Demo.request
                 = Normal (MkReply (ScanBody Demo.scanned) 200)) by by vm_compute.
  split; [exact Hrun|].
  exact (proj2 (proj2 (proj2
    (@POST_three_buckets lite (Demo.net Demo.page) Demo.request _ Demo.scanned
       Hrun eq_refl)))).
Defined.

Lemma POST_totals_witness :
  @POST lite (Demo.net Demo.page) Demo.request
    = Normal (MkReply (ScanBody Demo.scanned) 200)
  ∧ totalLinks Demo.scanned = length (links Demo.scanned)
  ∧ workingLinks Demo.scanned + brokenLinks Demo.scanned
    = totalLinks Demo.scanned - redirects Demo.scanned.
Proof.
  assert (Hrun : @POST lite (Demo.net Demo.page) Demo.request
                 = Normal (MkReply (ScanBody Demo.scanned) 200)) by by vm_compute.
  split; [exact Hrun|].
  pose proof (@POST_totals lite (Demo.net Demo.page) Demo.request _ Demo.scanned
                Hrun eq_refl) as (Hlen & _ & Hsum & _).
  exact (conj Hlen Hsum).
Defined.

(** C1 as the specification states it fails on the example page, one of
    whose three links is a working redirect: the endpoint returns
    [workingLinks = 1] and [brokenLinks = 1] for [totalLinks = 3]. *)
Lemma POST_working_plus_broken_short :
  @POST lite (Demo.net Demo.page) Demo.request
    = Normal (MkReply (ScanBody Demo.scanned) 200)
  ∧ workingLinks Demo.scanned + brokenLinks Demo.scanned ≠ totalLinks Demo.scanned.
Proof. split; [by vm_compute|]. simpl. lia. Qed.

Lemma POST_no_links_witness :
  @POST lite (Demo.net Demo.empty_page) Demo.request
    = Normal (MkReply (ScanBody (MkScanResult 0 0 0 0 [])) 200).
Proof.
  apply (@POST_no_links lite (Demo.net Demo.empty_page) Demo.request
           Demo.pageUrl Demo.empty_page
           (MkResponse Demo.pageUrl 200 "OK" (Normal Demo.empty_page)));
    by vm_compute.
Defined.

(** ** Export *)

Lemma string_app_assoc (s1 s2 s3 : string) :
  (s1 +:+ s2) +:+ s3 = s1 +:+ s2 +:+ s3.
Proof.
  induction s1 as [|c s1 IH]; [done|].
  change (String c ((s1 +:+ s2) +:+ s3) = String c (s1 +:+ s2 +:+ s3)).
  by f_equal.
Qed.

Lemma string_app_empty_r (s : string) : s +:+ "" = s.
Proof.
  induction s as [|c s IH]; [done|].
  change (String c (s +:+ "") = String c s). by f_equal.
Qed.

Lemma occurs_in_refl (t : string) : occurs_in t t.
Proof. exists "", "". by rewrite string_app_empty_r. Qed.

Lemma occurs_in_after (t s a : string) : occurs_in t s → occurs_in t (a +:+ s).
Proof.
  intros (pre & post & ->). exists (a +:+ pre), post.
  by rewrite !string_app_assoc.
Qed.

Lemma occurs_in_before (t s b : string) : occurs_in t s → occurs_in t (s +:+ b).
Proof.
  intros (pre & post & ->). exists pre, (post +:+ b).
  by rewrite !string_app_assoc.
Qed.

Lemma join_occurs (sep x : string) (l : list string) :
  x ∈ l → occurs_in x (JS.join sep l).
Proof.
  induction l as [|y l IH]; intros Hx; [by apply elem_of_nil in Hx|].
  destruct l as [|z l].
  - apply list_elem_of_singleton in Hx as ->. apply occurs_in_refl.
  - change (JS.join sep (y :: z :: l)) with (y +:+ sep +:+ JS.join sep (z :: l)).
    apply elem_of_cons in Hx as [->|Hx].
    + exists "", (sep +:+ JS.join sep (z :: l)). done.
    + by do 2 apply occurs_in_after; apply IH.
Qed.

(** C2, as the code has it: the export lists the final URL of exactly the
    links that work, redirects included, one anchor per link and in the
    order of the scan result. *)
Theorem exportAsHTML_working (r : ScanResult) :
  ∃ html,
    exportAsHTML (Some r) = Some html
    ∧ html = listing (finalUrl <$> filter (λ l, isWorking l = true) (links r))
    ∧ Forall (λ l, occurs_in (anchor_line l) html)
             (filter (λ l, isWorking l = true) (links r)).
Proof.
  eexists. split; [reflexivity|]. split.
  - unfold listing. by rewrite <- list_fmap_compose.
  - apply Forall_forall. intros l Hl.
    do 8 apply occurs_in_after. apply occurs_in_before, join_occurs.
    by apply list_elem_of_fmap_2.
Qed.

(** C2 as the specification states it fails on the scan result of the
    example page: the export lists the final URL of the working redirect
    next to that of the one working link that is not a redirect. *)
Lemma exportAsHTML_lists_redirect :
  exportAsHTML (Some Demo.scanned)
    = Some (listing ["https://a.com/ok"; "https://b.org/new"])
  ∧ finalUrl <$> filter (λ l, isWorking l = true ∧ isRedirect l = false)
                        (links Demo.scanned)
    = ["https://a.com/ok"]
  ∧ listing ["https://a.com/ok"; "https://b.org/new"] ≠ listing ["https://a.com/ok"].
Proof.
  split; [by vm_compute|]. split; [by vm_compute|].
  vm_compute. discriminate.
Qed.

(** * Further properties of the code *)

(** ** Status texts and probe results *)

Lemma getStatusText_cases (status : Z) :
  (status ∈ (fst <$> statusTexts) ∧ (status, getStatusText status) ∈ statusTexts
   ∧ getStatusText status ≠ "Unknown")
  ∨ ((status ∉ fst <$> statusTexts) ∧ getStatusText status = "Unknown").
Proof.
  unfold getStatusText, statusTexts. simpl.
  repeat (case_decide;
          [subst status; left; split; [|split];
           [by repeat constructor | by repeat constructor | done] | simpl]).
  right. split; [|done].
  rewrite !not_elem_of_cons. repeat split; try congruence. apply not_elem_of_nil.
Qed.

Lemma getStatusText_truthy (status : Z) : JS.truthy (getStatusText status) = true.
Proof.
  destruct (getStatusText_cases status) as [(_ & Hin & _)|[_ ->]]; [|done].
  unfold statusTexts in Hin.
  repeat (apply elem_of_cons in Hin as [Hin|Hin]; [by injection Hin as _ ->|]).
  by apply elem_of_nil in Hin.
Qed.

Lemma truthy_nonempty (s : string) : JS.truthy s = true ↔ s ≠ "".
Proof.
  unfold JS.truthy. rewrite negb_true_iff.
  destruct (String.eqb_spec s ""); split; congruence.
Qed.

(** X1: [getStatusText] never returns the empty string; it returns the
    text of the table for each of the twelve codes of the table, and
    ["Unknown"] for exactly the other statuses. *)
Theorem getStatusText_table (status : Z) :
  getStatusText status ≠ ""
  ∧ (getStatusText status = "Unknown" ↔ (status ∉ fst <$> statusTexts))
  ∧ Forall (λ kv, getStatusText kv.1 = kv.2) statusTexts.
Proof.
  split; [apply truthy_nonempty, getStatusText_truthy|]. split.
  - destruct (getStatusText_cases status) as [(Hin & _ & Hne)|[Hout Hu]]; tauto.
  - unfold statusTexts. repeat constructor.
Qed.

(** X2: on a response, the status text of the result is never empty: it
    is the reason phrase of the response when there is one, and otherwise
    the text of the table for the status (["Unknown"] outside the table). *)
Theorem checkLink_statusText (x : Exchange) (url : string) (response : Response) :
  settled x = Fulfilled response →
  ∃ r, checkLink_run x url = Normal r
       ∧ status r = resp_status response
       ∧ statusText r ≠ ""
       ∧ statusText r = (if decide (resp_statusText response = "")
                         then getStatusText (resp_status response)
                         else resp_statusText response).
Proof.
  intros Hx. unfold checkLink_run. rewrite Hx. simpl.
  eexists. split; [done|]. simpl. split; [done|].
  unfold JS.or_else. destruct (JS.truthy (resp_statusText response)) eqn:Ht.
  - apply truthy_nonempty in Ht. by rewrite decide_False.
  - assert (resp_statusText response = "") as Hempty.
    { destruct (decide (resp_statusText response = "")) as [|Hne]; [done|].
      apply truthy_nonempty in Hne. congruence. }
    rewrite decide_True by done.
    split; [apply truthy_nonempty, getStatusText_truthy | done].
Qed.

Lemma checkLink_statusText_witness :
  ∃ r, checkLink_run (HEAD (Demo.net Demo.page) 1 "https://bio.example/missing")
         "https://bio.example/missing" = Normal r
       ∧ statusText r = "Not Found".
Proof.
  destruct (checkLink_statusText (HEAD (Demo.net Demo.page) 1 "https://bio.example/missing")
              "https://bio.example/missing" _ eq_refl) as (r & Hr & _ & _ & Ht).
  exists r. split; [exact Hr | exact Ht].
Defined.

(** X3: whatever the request turns out to be, the probe returns a result
    for the probed URL whose [isWorking] says that the status is between
    200 and 399, and whose response time is the difference of the two
    clock readings; a result is flagged as a redirect only if the request
    was answered, by a response whose URL is not the probed one. *)
Theorem checkLink_classifies (x : Exchange) (url : string) :
  ∃ r, checkLink_run x url = Normal r
       ∧ originalUrl r = url
       ∧ (isWorking r = true ↔ (200 ≤ status r < 400)%Z)
       ∧ responseTime r = (clock_after x - clock_before x)%Z
       ∧ (isRedirect r = true →
          ∃ response, settled x = Fulfilled response ∧ resp_url response ≠ url).
Proof.
  unfold checkLink_run. destruct (settled x) as [response|e]; simpl.
  - eexists. split; [done|]. simpl. split; [done|]. split; [|split; [done|]].
    + rewrite andb_true_iff. lia.
    + unfold JS.strict_ne. rewrite negb_true_iff. intros Hne.
      exists response. split; [done|].
      destruct (String.eqb_spec (resp_url response) url); congruence.
  - eexists. split; [done|]. simpl. split; [done|]. split; [|split; [done|done]].
    split; [done | lia].
Qed.

(** ** URL normalizer *)

Lemma prefix_slashes_https (url : string) :
  String.prefix "//" url = true → String.prefix "https://" ("https:" +:+ url) = true.
Proof.
  by destruct url as [|c1 [|c2 rest]].
Qed.

Lemma normalizeUrl_absolute (P : Platform) (s : string) (base : option string) :
  JS.startsWith s "http://" || JS.startsWith s "https://" = true →
  @normalizeUrl P s base = Normal s.
Proof.
  intros Hs. unfold normalizeUrl, normalizeUrl_body. by rewrite Hs.
Qed.

(** X4: an href that starts with [http://], [https://] or two slashes is
    normalized without the URL parser: the result is the same on every
    platform and against every base, it starts with [http://] or
    [https://], and normalizing it again changes nothing. *)
Theorem normalizeUrl_schemes_fixed (href : string) :
  JS.startsWith href "http://" || JS.startsWith href "https://"
    || JS.startsWith href "//" = true →
  ∃ s, (∀ (P : Platform) base, @normalizeUrl P href base = Normal s)
       ∧ JS.startsWith s "http://" || JS.startsWith s "https://" = true
       ∧ (∀ (P : Platform) base, @normalizeUrl P s base = Normal s).
Proof.
  intros Hh.
  destruct (JS.startsWith href "http://" || JS.startsWith href "https://") eqn:Habs.
  - exists href. split; [|split; [done|]]; intros P base;
      by apply normalizeUrl_absolute.
  - simpl in Hh. exists ("https:" +:+ href).
    assert (Hs : JS.startsWith ("https:" +:+ href) "https://" = true)
      by by apply prefix_slashes_https.
    split; [|split].
    + intros P base. unfold normalizeUrl, normalizeUrl_body. by rewrite Habs, Hh.
    + rewrite Hs. apply orb_true_r.
    + intros P base. apply normalizeUrl_absolute. rewrite Hs. apply orb_true_r.
Qed.

Lemma normalizeUrl_schemes_fixed_witness :
  ∃ s, @normalizeUrl lite "//b.org/old" (Some Demo.pageUrl) = Normal s
       ∧ @normalizeUrl lite s None = Normal s.
Proof.
  destruct (normalizeUrl_schemes_fixed "//b.org/old" eq_refl) as (s & Hs & _ & Hfix).
  exists s. split; [apply Hs | apply Hfix].
Defined.

(** ** Link extractor *)

Lemma length_dedup_first (l : list string) : length (dedup_first l) ≤ length l.
Proof.
  induction l as [|x l IH]; simpl; [done|].
  pose proof (length_filter (λ y, y ≠ x) (dedup_first l)). lia.
Qed.

(** X5: a string is among the links extracted from a document exactly
    when it is the normalization of a non-empty [href] of an anchor of
    the document, is accepted by the URL constructor and starts neither
    with [mailto:] nor with [tel:]; so there are at most as many links as
    anchors. *)
Theorem extractLinks_members (P : Platform) (html baseUrl : string) :
  ∃ links,
    @extractLinks P html baseUrl = Normal links
    ∧ (∀ u, u ∈ links ↔
            ∃ h, h ∈ @anchor_hrefs P html ∧ h ≠ ""
                 ∧ @normalized P baseUrl h = u
                 ∧ @parses P u = true
                 ∧ JS.startsWith u "mailto:" = false
                 ∧ JS.startsWith u "tel:" = false)
    ∧ length links ≤ length (@anchor_hrefs P html).
Proof.
  exists (dedup_first (@candidates P html baseUrl)). split; [|split].
  - unfold extractLinks. rewrite each_extractLinks_step.
    by rewrite <- dedup_first_foldl_push.
  - intros u. rewrite dedup_first_elem_of. unfold candidates.
    rewrite list_elem_of_filter, list_elem_of_fmap. unfold kept.
    rewrite !andb_true_iff, !negb_true_iff. split.
    + intros (Hk & h & -> & Hh).
      apply list_elem_of_filter in Hh as [Hne Hh].
      exists h. apply truthy_nonempty in Hne. tauto.
    + intros (h & Hh & Hne & <- & Hp & Hm & Ht). split; [tauto|].
      exists h. split; [done|]. apply list_elem_of_filter.
      split; [by apply truthy_nonempty | done].
  - etrans; [apply length_dedup_first|]. unfold candidates.
    etrans; [apply length_filter|]. rewrite length_fmap. apply length_filter.
Qed.

(** ** Batch scheduler *)

Lemma probe_from_rounds (w : World) (urls : list string) (fuel i : nat)
    (st st' : Probing) :
  probe_from w urls fuel i st = Normal st' →
  ∃ rnds,
    rounds st' = rounds st ++ rnds
    ∧ ∀ k, rnds !! k =
           if decide (i + maxConcurrent * k < length urls)
           then Some (JS.slice (i + maxConcurrent * k)
                               (i + maxConcurrent * k + maxConcurrent) urls)
           else None.
Proof.
  revert i st. induction fuel as [|fuel IH]; intros i st Hrun;
    cbn [probe_from] in Hrun;
    destruct (i <? length urls) eqn:Hi; try done.
  - apply Nat.ltb_ge in Hi. injection Hrun as <-.
    exists []. split; [by rewrite app_nil_r|]. intros k.
    rewrite decide_False by lia. done.
  - apply Nat.ltb_lt in Hi.
    apply bind_Normal_inv in Hrun as (brs & _ & Hrun).
    apply IH in Hrun as (rnds & Hrnds & Hk). cbn [rounds] in Hrnds.
    exists (JS.slice i (i + maxConcurrent) urls :: rnds).
    split; [by rewrite Hrnds, <- app_assoc|].
    intros [|k].
    + replace (i + maxConcurrent * 0) with i by lia. by rewrite decide_True.
    + replace (i + maxConcurrent * S k) with (i + maxConcurrent + maxConcurrent * k)
        by lia.
      by rewrite <- Hk.
  - apply Nat.ltb_ge in Hi. injection Hrun as <-.
    exists []. split; [by rewrite app_nil_r|]. intros k.
    rewrite decide_False by lia. done.
Qed.

Lemma probeAll_returns (w : World) (urls : list string) :
  ∃ st, probeAll w urls = Normal st
        ∧ originalUrl <$> linkResults st = urls
        ∧ Normal <$> linkResults st = imap (λ k u, checkLink_run (HEAD w k u) u) urls.
Proof.
  destruct (probe_from_spec w urls (length urls) 0 (MkProbing [] []))
    as (rs & rnds & Hrun & Hrs & _); [lia|].
  simpl in Hrun, Hrs. eexists. split; [exact Hrun|]. simpl.
  split; [by eapply probes_keep_urls | done].
Qed.

(** X6: the round number [k] of the scheduler probes the ten URLs of
    the input from position [10 k] on (fewer at the end of the input),
    for as long as [10 k] is within the input: every round but the last
    has ten URLs, and the number of rounds is the number of URLs divided
    by ten, rounded up. *)
Theorem probeAll_rounds (w : World) (urls : list string) :
  ∃ st,
    probeAll w urls = Normal st
    ∧ (∀ k, rounds st !! k =
            if decide (10 * k < length urls)
            then Some (take 10 (drop (10 * k) urls))
            else None)
    ∧ length urls ≤ 10 * length (rounds st) < length urls + 10.
Proof.
  destruct (probeAll_returns w urls) as (st & Hrun & _).
  exists st. split; [done|].
  apply probe_from_rounds in Hrun as (rnds & Hrnds & Hk0).
  cbn [rounds app] in Hrnds. subst rnds.
  assert (Hk : ∀ k, rounds st !! k =
            if decide (10 * k < length urls)
            then Some (take 10 (drop (10 * k) urls))
            else None).
  { intros k. rewrite Hk0. unfold JS.slice, maxConcurrent.
    replace (0 + 10 * k + 10 - (0 + 10 * k)) with 10 by lia.
    replace (0 + 10 * k) with (10 * k) by lia. done. }
  clear Hk0. split; [done|].
  pose proof (Hk (length (rounds st))) as Hend.
  rewrite (proj2 (lookup_ge_None (rounds st) _)) in Hend by lia.
  case_decide; [done|].
  split; [lia|].
  destruct (length (rounds st)) as [|n] eqn:Hn; [lia|].
  pose proof (Hk n) as Hlast.
  destruct (lookup_lt_is_Some_2 (rounds st) n) as [b Hb]; [lia|].
  rewrite Hb in Hlast. case_decide; [|done]. lia.
Qed.

(** ** Scan orchestrator: the replies *)

Lemma append_nonempty (s1 s2 : string) : s1 ≠ "" → s1 +:+ s2 ≠ "".
Proof. by destruct s1. Qed.

Section ReplyFacts.
Context `{Platform}.

Lemma extractLinks_returns (html baseUrl : string) :
  extractLinks html baseUrl = Normal (dedup_first (candidates html baseUrl)).
Proof.
  unfold extractLinks. rewrite each_extractLinks_step.
  by rewrite <- dedup_first_foldl_push.
Qed.

(** The replies of the [catch] block. *)
Lemma POST_catch_cases (e : Thrown) :
  POST_catch e = Normal (MkReply
    (ErrorBody "Request timeout - the URL took too long to respond") 408)
  ∨ POST_catch e = Normal (MkReply (ErrorBody "Internal server error") 500).
Proof.
  destruct e as [name msg|shown]; simpl; [|by right].
  destruct (String.eqb name "AbortError"); auto.
Qed.

Lemma POST_reply_cases (w : World) (request : NextRequest) (reply : NextResponse) :
  POST w request = Normal reply →
  (http_status reply = 200%Z ∧ ∃ r, body reply = ScanBody r)
  ∨ ((http_status reply = 400%Z ∨ http_status reply = 408%Z
      ∨ http_status reply = 500%Z)
     ∧ ∃ msg, body reply = ErrorBody msg ∧ msg ≠ "").
Proof.
  unfold POST. intros Hpost.
  destruct (POST_body w request) as [reply'|e|] eqn:Hrun; simpl in Hpost.
  2:{ destruct (POST_catch_cases e) as [He|He]; rewrite He in Hpost;
        injection Hpost as <-; right; simpl; eauto 10. }
  2:{ done. }
  injection Hpost as ->. unfold POST_body in Hrun.
  apply bind_Normal_inv in Hrun as (parsed & _ & Hrun).
  apply bind_Normal_inv in Hrun as (url & _ & Hrun).
  assert (Hrequired : ∀ reply0,
            Normal (MkReply (ErrorBody "URL is required") 400) = Normal reply0 →
            (http_status reply0 = 200%Z ∧ ∃ r, body reply0 = ScanBody r)
            ∨ ((http_status reply0 = 400%Z ∨ http_status reply0 = 408%Z
                ∨ http_status reply0 = 500%Z)
               ∧ ∃ msg, body reply0 = ErrorBody msg ∧ msg ≠ "")).
  { intros reply0 Heq. injection Heq as <-. right. simpl. eauto 10. }
  destruct url as [| | | |url|]; try by apply Hrequired.
  destruct (js_not (VStr url)); [by apply Hrequired|]. clear Hrequired.
  apply bind_Normal_inv in Hrun as (valid & _ & Hrun).
  destruct valid; simpl in Hrun;
    [|injection Hrun as <-; right; simpl; eauto 10].
  apply bind_Normal_inv in Hrun as (response & _ & Hrun).
  destruct (resp_ok response); simpl in Hrun.
  2:{ injection Hrun as <-. right. simpl. split; [auto|].
      eexists. split; [done|]. by apply append_nonempty. }
  apply bind_Normal_inv in Hrun as (html & _ & Hrun).
  apply bind_Normal_inv in Hrun as (extracted & _ & Hrun).
  destruct (length extracted =? 0).
  - injection Hrun as <-. left. simpl. eauto.
  - apply bind_Normal_inv in Hrun as (st & _ & Hrun).
    injection Hrun as <-. left. simpl. eauto.
Qed.

(** X7: every reply of the endpoint is either a scan result with status
    200, or an error message that is not empty with status 400, 408 or
    500. *)
Theorem POST_reply_shape (w : World) (request : NextRequest) (reply : NextResponse) :
  POST w request = Normal reply →
  (http_status reply = 200%Z ∧ ∃ r, body reply = ScanBody r)
  ∨ ((http_status reply = 400%Z ∨ http_status reply = 408%Z
      ∨ http_status reply = 500%Z)
     ∧ ∃ msg, body reply = ErrorBody msg ∧ msg ≠ "").
Proof. apply POST_reply_cases. Qed.

Ltac answered :=
  left; simpl;
  first [ by eauto | match goal with Hc : ∀ e, ∃ _, _ |- _ => by apply Hc end ].

Lemma POST_outcomes (w : World) (request : NextRequest) :
  (∃ reply, POST w request = Normal reply)
  ∨ req_json request = Pending
  ∨ (∃ url response,
       req_json request = Normal (JObj (VStr url))
       ∧ GET w url = Fulfilled response
       ∧ resp_ok response = true
       ∧ resp_text response = Pending).
Proof.
  unfold POST.
  assert (Hcatch : ∀ e, ∃ reply, POST_catch e = Normal reply).
  { intros e. destruct (POST_catch_cases e) as [->| ->]; eauto. }
  unfold POST_body.
  destruct (req_json request) as [parsed|e|] eqn:Hj; simpl; [|answered|auto].
  destruct parsed as [|v|]; simpl; [answered| |answered].
  destruct v as [| | | |url|]; try answered.
  simpl. destruct (JS.truthy url); simpl; [|answered].
  rewrite isValidUrl_parses. simpl.
  destruct (parses url); simpl; [|answered].
  destruct (GET w url) as [response|e] eqn:Hget; simpl; [|answered].
  destruct (resp_ok response) eqn:Hok; simpl; [|answered].
  destruct (resp_text response) as [html|e|] eqn:Htext; simpl;
    [|answered|right; right; eauto 10].
  rewrite extractLinks_returns. simpl.
  destruct (length _ =? 0); [answered|].
  destruct (probeAll_returns w (dedup_first (candidates html url))) as (st & -> & _).
  answered.
Qed.

(** X8: the endpoint never throws. It answers unless the body of the
    request is never read to its end, or the text of a page that was
    fetched with a success status is never read to its end. *)
Theorem POST_answers (w : World) (request : NextRequest) :
  (∃ reply, POST w request = Normal reply)
  ∨ req_json request = Pending
  ∨ (∃ url response,
       req_json request = Normal (JObj (VStr url))
       ∧ GET w url = Fulfilled response
       ∧ resp_ok response = true
       ∧ resp_text response = Pending).
Proof. apply POST_outcomes. Qed.

End ReplyFacts.

Lemma POST_reply_shape_witness :
  @POST lite DemoPage.not_found Demo.request
    = Normal (MkReply (ErrorBody "Failed to fetch URL: 404 Not Found") 400)
  ∧ ∃ msg, ErrorBody "Failed to fetch URL: 404 Not Found" = ErrorBody msg ∧ msg ≠ "".
Proof.
  assert (Hrun : @POST lite DemoPage.not_found Demo.request
                 = Normal (MkReply (ErrorBody "Failed to fetch URL: 404 Not Found") 400))
    by by vm_compute.
  split; [exact Hrun|].
  destruct (@POST_reply_shape lite DemoPage.not_found Demo.request _ Hrun)
    as [[Hcode _]|[_ Hmsg]]; [discriminate Hcode | exact Hmsg].
Defined.

Section RequestFacts.
Context `{Platform}.

(** X9: a body that parses to something other than [null] and has no
    [url] that is a non-empty string (no such property, another type, or
    the empty string) is answered 400 ["URL is required"], whatever the
    network. *)
Theorem POST_url_required (w : World) (request : NextRequest) (parsed : Json) :
  req_json request = Normal parsed →
  parsed ≠ JNull →
  (∀ s, parsed = JObj (VStr s) → s = "") →
  POST w request = Normal (MkReply (ErrorBody "URL is required") 400).
Proof.
  intros Hreq Hnull Hstr. unfold POST, POST_body. rewrite Hreq. simpl.
  destruct parsed as [|v|]; [done| |done].
  destruct v as [| | | |s|]; try done.
  by rewrite (Hstr s eq_refl).
Qed.

(** X10: a body that is the JSON [null], or that is not JSON (so that
    [request.json()] rejects with a [SyntaxError]), is answered 500
    ["Internal server error"]. *)
Theorem POST_unreadable_body (w : World) (request : NextRequest) :
  req_json request = Normal JNull
  ∨ (∃ msg, req_json request = Abrupt (ErrorObject "SyntaxError" msg)) →
  POST w request = Normal (MkReply (ErrorBody "Internal server error") 500).
Proof.
  intros [Hreq|[msg Hreq]]; unfold POST, POST_body; by rewrite Hreq.
Qed.

(** X11: a non-empty [url] that the URL constructor rejects is answered
    400 ["Invalid URL format"], whatever the network. *)
Theorem POST_invalid_url (w : World) (request : NextRequest) (url : string) :
  req_json request = Normal (JObj (VStr url)) →
  url ≠ "" →
  parses url = false →
  POST w request = Normal (MkReply (ErrorBody "Invalid URL format") 400).
Proof.
  intros Hreq Hne Hparse. apply truthy_nonempty in Hne.
  unfold POST, POST_body. rewrite Hreq. simpl. rewrite Hne. simpl.
  by rewrite isValidUrl_parses, Hparse.
Qed.

(** X12: when the page is fetched with a status outside 200-299, the
    endpoint answers 400 with a message that carries the status and the
    reason phrase of the page, whatever the text of the page and the
    answers to HEAD requests would be. *)
Theorem POST_page_not_ok (w : World) (request : NextRequest) (url : string)
    (response : Response) :
  req_json request = Normal (JObj (VStr url)) →
  url ≠ "" →
  parses url = true →
  GET w url = Fulfilled response →
  ¬ (200 ≤ resp_status response ≤ 299)%Z →
  POST w request
  = Normal (MkReply
      (ErrorBody ("Failed to fetch URL: " +:+ pretty (resp_status response)
                  +:+ " " +:+ resp_statusText response)) 400).
Proof.
  intros Hreq Hne Hparse Hget Hstatus. apply truthy_nonempty in Hne.
  unfold POST, POST_body. rewrite Hreq. simpl. rewrite Hne. simpl.
  rewrite isValidUrl_parses, Hparse. simpl. rewrite Hget. simpl.
  unfold resp_ok.
  destruct ((200 <=? resp_status response)%Z && (resp_status response <=? 299)%Z)
    eqn:Hok; [|done].
  apply andb_true_iff in Hok. lia.
Qed.

(** X13: when the fetch of the page rejects, the endpoint answers 408
    ["Request timeout - the URL took too long to respond"] if the error
    is named [AbortError], and 500 ["Internal server error"] for every
    other error. *)
Theorem POST_page_fetch_fails (w : World) (request : NextRequest) (url : string)
    (name message : string) :
  req_json request = Normal (JObj (VStr url)) →
  url ≠ "" →
  parses url = true →
  GET w url = Rejected (ErrorObject name message) →
  POST w request =
    Normal (if decide (name = "AbortError")
            then MkReply
                   (ErrorBody "Request timeout - the URL took too long to respond") 408
            else MkReply (ErrorBody "Internal server error") 500).
Proof.
  intros Hreq Hne Hparse Hget. apply truthy_nonempty in Hne.
  unfold POST, POST_body. rewrite Hreq. simpl. rewrite Hne. simpl.
  rewrite isValidUrl_parses, Hparse. simpl. rewrite Hget. simpl.
  destruct (String.eqb_spec name "AbortError").
  - by rewrite decide_True.
  - by rewrite decide_False.
Qed.

(** X14: the links of a scan result are the links extracted from the
    text of the fetched page, in the order of extraction, each probed
    once: their original URLs are the deduplicated normalized hrefs of the
    page, without repetition. *)
Theorem POST_links_extracted (w : World) (request : NextRequest)
    (reply : NextResponse) (r : ScanResult) :
  POST w request = Normal reply →
  body reply = ScanBody r →
  ∃ url response html,
    req_json request = Normal (JObj (VStr url))
    ∧ GET w url = Fulfilled response
    ∧ resp_text response = Normal html
    ∧ extractLinks html url = Normal (originalUrl <$> links r)
    ∧ originalUrl <$> links r = dedup_first (candidates html url)
    ∧ NoDup (originalUrl <$> links r).
Proof.
  unfold POST. intros Hpost Hbody.
  destruct (POST_body w request) as [reply'|e|] eqn:Hrun; simpl in Hpost.
  2:{ destruct (POST_catch_cases e) as [He|He]; rewrite He in Hpost;
        injection Hpost as <-; done. }
  2:{ done. }
  injection Hpost as ->. unfold POST_body in Hrun.
  apply bind_Normal_inv in Hrun as (parsed & Hreq & Hrun).
  apply bind_Normal_inv in Hrun as (v & Hv & Hrun).
  destruct v as [| | | |url|]; try by (injection Hrun as <-).
  destruct (js_not (VStr url)); [by injection Hrun as <-|].
  apply bind_Normal_inv in Hrun as (valid & _ & Hrun).
  destruct valid; simpl in Hrun; [|by injection Hrun as <-].
  apply bind_Normal_inv in Hrun as (response & Hget & Hrun).
  destruct (resp_ok response); simpl in Hrun; [|by injection Hrun as <-].
  apply bind_Normal_inv in Hrun as (html & Htext & Hrun).
  apply bind_Normal_inv in Hrun as (extracted & Hlinks & Hrun).
  assert (Hparsed : parsed = JObj (VStr url)).
  { destruct parsed as [|v'|]; simpl in Hv; by simplify_eq. }
  assert (Hfetched : GET w url = Fulfilled response).
  { destruct (GET w url); simpl in Hget; by simplify_eq. }
  assert (Hnames : originalUrl <$> links r = extracted).
  { destruct (length extracted =? 0) eqn:Hlen.
    - injection Hrun as <-. simpl in Hbody. injection Hbody as <-. simpl.
      apply Nat.eqb_eq in Hlen. by destruct extracted.
    - apply bind_Normal_inv in Hrun as (st & Hst & Hrun).
      injection Hrun as <-. simpl in Hbody. injection Hbody as <-. simpl.
      destruct (probeAll_returns w extracted) as (st' & Hst' & Hurls & _).
      rewrite Hst in Hst'. by injection Hst' as <-. }
  exists url, response, html. rewrite Hnames. subst parsed.
  rewrite extractLinks_returns in Hlinks. injection Hlinks as <-.
  split; [done|]. split; [done|]. split; [done|].
  split; [apply extractLinks_returns|]. split; [done | apply NoDup_dedup_first].
Qed.

End RequestFacts.

Lemma POST_url_required_witness :
  @POST lite (Demo.net Demo.page) DemoPage.number_url
  = Normal (MkReply (ErrorBody "URL is required") 400).
Proof.
  apply (@POST_url_required lite (Demo.net Demo.page) DemoPage.number_url
           (JObj (VNum 7))); [reflexivity | discriminate | discriminate].
Defined.

Lemma POST_unreadable_body_witness :
  @POST lite (Demo.net Demo.page) DemoPage.null_body
  = Normal (MkReply (ErrorBody "Internal server error") 500).
Proof.
  apply (@POST_unreadable_body lite (Demo.net Demo.page) DemoPage.null_body).
  left. reflexivity.
Defined.

Lemma POST_invalid_url_witness :
  @POST lite (Demo.net Demo.page) DemoPage.bad_url
  = Normal (MkReply (ErrorBody "Invalid URL format") 400).
Proof.
  apply (@POST_invalid_url lite (Demo.net Demo.page) DemoPage.bad_url "not a url");
    [reflexivity | discriminate | by vm_compute].
Defined.

Lemma POST_page_not_ok_witness :
  @POST lite DemoPage.not_found Demo.request
  = Normal (MkReply (ErrorBody ("Failed to fetch URL: " +:+ pretty 404%Z
                                +:+ " " +:+ "Not Found")) 400).
Proof.
  apply (@POST_page_not_ok lite DemoPage.not_found Demo.request Demo.pageUrl
           (MkResponse Demo.pageUrl 404 "Not Found" (Normal "gone")));
    [reflexivity | discriminate | by vm_compute | reflexivity | simpl; lia].
Defined.

Lemma POST_page_fetch_fails_witness :
  @POST lite DemoPage.aborted Demo.request
  = Normal (MkReply
      (ErrorBody "Request timeout - the URL took too long to respond") 408).
Proof.
  apply (@POST_page_fetch_fails lite DemoPage.aborted Demo.request Demo.pageUrl
           "AbortError" "This operation was aborted");
    [reflexivity | discriminate | by vm_compute | reflexivity].
Defined.

Lemma POST_links_extracted_witness :
  @POST lite (Demo.net Demo.page) Demo.request
    = Normal (MkReply (ScanBody Demo.scanned) 200)
  ∧ ∃ url response html,
      req_json Demo.request = Normal (JObj (VStr url))
      ∧ GET (Demo.net Demo.page) url = Fulfilled response
      ∧ resp_text response = Normal html
      ∧ @extractLinks lite html url = Normal (originalUrl <$> links Demo.scanned).
Proof.
  assert (Hrun : @POST lite (Demo.net Demo.page) Demo.request
                 = Normal (MkReply (ScanBody Demo.scanned) 200)) by by vm_compute.
  split; [exact Hrun|].
  destruct (@POST_links_extracted lite (Demo.net Demo.page) Demo.request _
              Demo.scanned Hrun eq_refl)
    as (url & response & html & Hreq & Hget & Htext & Hlinks & _).
  exists url, response, html. auto.
Defined.

(** ** The table of the page *)

Lemma label_cases (link : LinkResult) :
  (isWorking link = true ∧ isRedirect link = false
   ∧ Page.getStatusLabel link
     = Page.MkElement "span" "text-green-600 font-medium" "✅ Working"
   ∧ Page.getStatusIcon link
     = Page.MkElement "CheckCircle" "w-5 h-5 text-green-500" "")
  ∨ (isRedirect link = true
     ∧ Page.getStatusLabel link
       = Page.MkElement "span" "text-yellow-600 font-medium" "⚠️ Redirect"
     ∧ Page.getStatusIcon link
       = Page.MkElement "AlertTriangle" "w-5 h-5 text-yellow-500" "")
  ∨ (isWorking link = false ∧ isRedirect link = false
     ∧ Page.getStatusLabel link
       = Page.MkElement "span" "text-red-600 font-medium" "❌ Broken"
     ∧ Page.getStatusIcon link
       = Page.MkElement "XCircle" "w-5 h-5 text-red-500" "").
Proof.
  unfold Page.getStatusLabel, Page.getStatusIcon.
  destruct (isWorking link), (isRedirect link); simpl; auto 10.
Qed.

(** X15: the icon and the label of a row always go together, and they
    follow the two flags of the link: [Working] for a working link that
    is not a redirect, [Redirect] for every link flagged as a redirect,
    working or not, and [Broken] for the rest. *)
Theorem label_and_icon (link : LinkResult) :
  (Page.text (Page.getStatusLabel link) = "✅ Working"
   ↔ isWorking link = true ∧ isRedirect link = false)
  ∧ (Page.text (Page.getStatusLabel link) = "⚠️ Redirect"
     ↔ isRedirect link = true)
  ∧ (Page.text (Page.getStatusLabel link) = "❌ Broken"
     ↔ isWorking link = false ∧ isRedirect link = false)
  ∧ (Page.component (Page.getStatusIcon link) = "CheckCircle"
     ↔ Page.text (Page.getStatusLabel link) = "✅ Working")
  ∧ (Page.component (Page.getStatusIcon link) = "AlertTriangle"
     ↔ Page.text (Page.getStatusLabel link) = "⚠️ Redirect")
  ∧ (Page.component (Page.getStatusIcon link) = "XCircle"
     ↔ Page.text (Page.getStatusLabel link) = "❌ Broken").
Proof.
  destruct (label_cases link) as [(Hw & Hr & -> & ->)|[(Hr & -> & ->)|(Hw & Hr & -> & ->)]];
    simpl; rewrite ?Hw, ?Hr; repeat split; intros; try done;
    destruct_and?; congruence.
Qed.

Lemma labelled_counts (lrs : list LinkResult) :
  length (labelled "✅ Working" lrs) = workingLinks (summarize lrs)
  ∧ length (labelled "⚠️ Redirect" lrs)
    = redirects (summarize lrs)
      + length (filter (λ l, isWorking l = false ∧ isRedirect l = true) lrs)
  ∧ length (labelled "❌ Broken" lrs)
    + length (filter (λ l, isWorking l = false ∧ isRedirect l = true) lrs)
    = brokenLinks (summarize lrs).
Proof.
  unfold labelled, summarize. cbn [workingLinks redirects brokenLinks].
  induction lrs as [|l lrs (IHw & IHr & IHb)]; [done|].
  rewrite !filter_cons.
  unfold Page.getStatusLabel in *.
  destruct (isWorking l), (isRedirect l); simpl; lia.
Qed.

Section TableFacts.
Context `{Platform}.

(** X16: in the table of a scan result that the endpoint returned, as
    many rows are labelled [Working] as [workingLinks] says, but a link
    that does not work and is flagged as a redirect is labelled
    [Redirect] while it is counted in [brokenLinks]: the rows labelled
    [Broken] and these links together are [brokenLinks], and the rows
    labelled [Redirect] are [redirects] and these links together. *)
Theorem POST_table_labels (w : World) (request : NextRequest)
    (reply : NextResponse) (r : ScanResult) :
  POST w request = Normal reply →
  body reply = ScanBody r →
  length (labelled "✅ Working" (links r)) = workingLinks r
  ∧ length (labelled "⚠️ Redirect" (links r))
    = redirects r
      + length (filter (λ l, isWorking l = false ∧ isRedirect l = true) (links r))
  ∧ length (labelled "❌ Broken" (links r))
    + length (filter (λ l, isWorking l = false ∧ isRedirect l = true) (links r))
    = brokenLinks r.
Proof.
  intros Hpost Hbody.
  destruct (POST_scan w request reply r Hpost Hbody) as [_ [->|(urls & st & _ & ->)]].
  - done.
  - apply labelled_counts.
Qed.

(** X17: the message above the table of a scan result that the endpoint
    returned is the green one, that no broken link was found, exactly
    when every link of the result works; otherwise it gives the number of
    links that do not work. *)
Theorem POST_results_message (w : World) (request : NextRequest)
    (reply : NextResponse) (r : ScanResult) :
  POST w request = Normal reply →
  body reply = ScanBody r →
  (Page.text (Page.results_message r)
     = "🎉 No broken links found! Your bio page is clean."
   ↔ Forall (λ l, isWorking l = true) (links r))
  ∧ (Page.text (Page.results_message r)
       = "🎉 No broken links found! Your bio page is clean."
     ∨ Page.text (Page.results_message r)
       = "Found " +:+ pretty (length (filter (λ l, isWorking l = false) (links r)))
         +:+ " issue"
         +:+ (if decide (length (filter (λ l, isWorking l = false) (links r)) = 1)
              then "" else "s")
         +:+ " that need attention").
Proof.
  intros Hpost Hbody.
  assert (Hbroken : brokenLinks r = length (filter (λ l, isWorking l = false) (links r))).
  { destruct (POST_scan w request reply r Hpost Hbody) as [_ [->|(urls & st & _ & ->)]];
      [done|]. apply summarize_words. }
  unfold Page.results_message. rewrite Hbroken.
  pose proof (length_filter_zero (λ l, isWorking l = false) (links r)) as Hz.
  destruct (length (filter (λ l, isWorking l = false) (links r))) as [|n] eqn:Hn.
  - simpl. split; [|by left]. split; [|done]. intros _.
    eapply Forall_impl; [by apply Hz|]. intros l Hl. simpl in Hl.
    by destruct (isWorking l).
  - split.
    + split; [by destruct n|]. intros Hall.
      assert (S n = 0) as Habs; [|done].
      apply Hz. eapply Forall_impl; [exact Hall|]. simpl. intros l ->. done.
    + right. cbn [Page.text]. destruct n as [|n]; [done|].
      rewrite decide_False by lia. done.
Qed.

(** X18: the export of a scan result that the endpoint returned lists
    [workingLinks + redirects] final URLs, those of the links that work. *)
Theorem POST_export_size (w : World) (request : NextRequest)
    (reply : NextResponse) (r : ScanResult) :
  POST w request = Normal reply →
  body reply = ScanBody r →
  ∃ urls,
    exportAsHTML (Some r) = Some (listing urls)
    ∧ urls = finalUrl <$> filter (λ l, isWorking l = true) (links r)
    ∧ length urls = workingLinks r + redirects r.
Proof.
  intros Hpost Hbody. eexists. split; [|split; [reflexivity|]].
  - simpl. unfold listing. by rewrite <- list_fmap_compose.
  - rewrite length_fmap.
    destruct (POST_scan w request reply r Hpost Hbody) as [_ [->|(urls & st & _ & ->)]];
      [done|].
    unfold summarize. cbn [workingLinks redirects links].
    clear Hpost Hbody. induction (linkResults st) as [|l lrs IH]; [done|].
    rewrite !filter_cons. destruct (isWorking l), (isRedirect l); simpl; lia.
Qed.

End TableFacts.

(** X19: in the row of a probe result the status badge is red exactly
    when the link does not work, and a probe whose request failed is
    labelled [Broken]. *)
Theorem checkLink_row (x : Exchange) (url : string) :
  ∃ r, checkLink_run x url = Normal r
       ∧ (Page.status_badge r = "bg-red-100 text-red-800" ↔ isWorking r = false)
       ∧ (∀ e, settled x = Rejected e →
               Page.text (Page.getStatusLabel r) = "❌ Broken"
               ∧ status r = 0%Z).
Proof.
  unfold checkLink_run. destruct (settled x) as [response|e]; simpl.
  - eexists. split; [done|]. split; [|done].
    unfold Page.status_badge. simpl.
    destruct (resp_status response >=? 200)%Z eqn:H1,
             (resp_status response <? 300)%Z eqn:H2,
             (resp_status response >=? 300)%Z eqn:H3,
             (resp_status response <? 400)%Z eqn:H4; simpl; split; try done; lia.
  - eexists. split; [done|]. split; [done|]. intros e' _. done.
Qed.

Lemma POST_table_labels_witness :
  @POST lite (Demo.net Demo.page) Demo.request
    = Normal (MkReply (ScanBody Demo.scanned) 200)
  ∧ length (labelled "✅ Working" (links Demo.scanned)) = workingLinks Demo.scanned.
Proof.
  assert (Hrun : @POST lite (Demo.net Demo.page) Demo.request
                 = Normal (MkReply (ScanBody Demo.scanned) 200)) by by vm_compute.
  split; [exact Hrun|].
  exact (proj1 (@POST_table_labels lite (Demo.net Demo.page) Demo.request _
                  Demo.scanned Hrun eq_refl)).
Defined.

Lemma POST_results_message_witness :
  @POST lite (Demo.net Demo.page) Demo.request
    = Normal (MkReply (ScanBody Demo.scanned) 200)
  ∧ (Page.text (Page.results_message Demo.scanned)
       = "🎉 No broken links found! Your bio page is clean."
     ↔ Forall (λ l, isWorking l = true) (links Demo.scanned)).
Proof.
  assert (Hrun : @POST lite (Demo.net Demo.page) Demo.request
                 = Normal (MkReply (ScanBody Demo.scanned) 200)) by by vm_compute.
  split; [exact Hrun|].
  exact (proj1 (@POST_results_message lite (Demo.net Demo.page) Demo.request _
                  Demo.scanned Hrun eq_refl)).
Defined.

Lemma POST_export_size_witness :
  @POST lite (Demo.net Demo.page) Demo.request
    = Normal (MkReply (ScanBody Demo.scanned) 200)
  ∧ ∃ urls, exportAsHTML (Some Demo.scanned) = Some (listing urls)
            ∧ length urls = 2.
Proof.
  assert (Hrun : @POST lite (Demo.net Demo.page) Demo.request
                 = Normal (MkReply (ScanBody Demo.scanned) 200)) by by vm_compute.
  split; [exact Hrun|].
  destruct (@POST_export_size lite (Demo.net Demo.page) Demo.request _
              Demo.scanned Hrun eq_refl) as (urls & Hexp & _ & Hlen).
  exists urls. split; [exact Hexp | exact Hlen].
Defined.

(** ** The scan handler of the page *)

Lemma or_else_nonempty (a b : string) : a ≠ "" → JS.or_else a b = a.
Proof. intros Ha. apply truthy_nonempty in Ha. unfold JS.or_else. by rewrite Ha. Qed.

Lemma handleScan_cases (api : Page.Api) (st st' : Page.Home) :
  Page.handleScan api st = Normal st' →
  (JS.truthy (JSString.trim (Page.url st)) = false
   ∧ st' = {| Page.url := Page.url st; Page.isScanning := Page.isScanning st;
              Page.result := Page.result st;
              Page.error := "Please enter a valid URL" |})
  ∨ (JS.truthy (JSString.trim (Page.url st)) = true
     ∧ ((∃ response data,
           api (JSString.trim (Page.url st)) = Normal response
           ∧ Page.json response = Normal data
           ∧ Page.ok response = true
           ∧ st' = {| Page.url := Page.url st; Page.isScanning := false;
                      Page.result := Some data; Page.error := "" |})
        ∨ (∃ message,
             st' = {| Page.url := Page.url st; Page.isScanning := false;
                      Page.result := None; Page.error := message |}))).
Proof.
  unfold Page.handleScan.
  destruct (JS.truthy (JSString.trim (Page.url st))) eqn:Hblank; simpl.
  2:{ intros Hrun. injection Hrun as <-. by left. }
  intros Hrun. right. split; [done|].
  unfold Page.handleScan_try, Page.handleScan_catch, Page.scan_started in Hrun.
  simpl in Hrun.
  destruct (api (JSString.trim (Page.url st))) as [response|e|] eqn:Hapi;
    simpl in Hrun; [| injection Hrun as <-; right; eauto | done].
  destruct (Page.json response) as [data|e|] eqn:Hdata; simpl in Hrun;
    [| injection Hrun as <-; right; eauto | done].
  destruct (Page.ok response) eqn:Hok; simpl in Hrun; injection Hrun as <-.
  - left. exists response, data. done.
  - right. eauto.
Qed.

(** X20: once the handler has run, the URL field is as it was. On a URL
    that is not blank the spinner is off and a result and an error are
    never on show together; on a blank URL only the error is set: an
    earlier result stays on show and the spinner is untouched. *)
Theorem handleScan_outcome (api : Page.Api) (st st' : Page.Home) :
  Page.handleScan api st = Normal st' →
  Page.url st' = Page.url st
  ∧ (if JS.truthy (JSString.trim (Page.url st))
     then Page.isScanning st' = false
          ∧ (Page.result st' = None ∨ Page.error st' = "")
     else Page.isScanning st' = Page.isScanning st
          ∧ Page.result st' = Page.result st
          ∧ Page.error st' = "Please enter a valid URL").
Proof.
  intros Hrun.
  destruct (handleScan_cases api st st' Hrun)
    as [[-> ->]|[-> [(response & data & _ & _ & _ & ->)|(message & ->)]]];
    simpl; auto.
Qed.

Lemma handleScan_outcome_witness :
  Page.handleScan (@served lite (Demo.net Demo.page)) DemoPage.blank
    = Normal {| Page.url := "   "; Page.isScanning := false;
                Page.result := Some (ScanBody Demo.scanned);
                Page.error := "Please enter a valid URL" |}
  ∧ Page.url DemoPage.blank = "   ".
Proof.
  assert (Hrun : Page.handleScan (@served lite (Demo.net Demo.page)) DemoPage.blank
    = Normal {| Page.url := "   "; Page.isScanning := false;
                Page.result := Some (ScanBody Demo.scanned);
                Page.error := "Please enter a valid URL" |}) by by vm_compute.
  split; [exact Hrun|].
  exact (eq_sym (proj1 (handleScan_outcome _ _ _ Hrun))).
Defined.

(** X21: the handler never throws. It finishes unless, on a URL that is
    not blank, the request to the endpoint or the reading of its JSON
    body never settles. *)
Theorem handleScan_finishes (api : Page.Api) (st : Page.Home) :
  (∃ st', Page.handleScan api st = Normal st')
  ∨ (JS.truthy (JSString.trim (Page.url st)) = true
     ∧ (api (JSString.trim (Page.url st)) = Pending
        ∨ ∃ response, api (JSString.trim (Page.url st)) = Normal response
                      ∧ Page.json response = Pending)).
Proof.
  unfold Page.handleScan.
  destruct (JS.truthy (JSString.trim (Page.url st))); simpl; [|eauto].
  unfold Page.handleScan_try, Page.scan_started. simpl.
  destruct (api (JSString.trim (Page.url st))) as [response|e|]; simpl; [|eauto|auto].
  destruct (Page.json response) as [data|e|] eqn:Hdata; simpl; [|eauto|eauto 10].
  destruct (Page.ok response); simpl; eauto.
Qed.

Section ServedFacts.
Context `{Platform}.

Lemma POST_never_throws (w : World) (request : NextRequest) (e : Thrown) :
  POST w request = Abrupt e → False.
Proof.
  unfold POST. destruct (POST_body w request) as [reply|e'|]; simpl; try done.
  by destruct (POST_catch_cases e') as [->| ->].
Qed.

(** X22: when the page is served by the endpoint, the handler posts the
    trimmed URL, and once it has run on a URL that is not blank it shows
    what the endpoint replied: the scan result of a reply with status
    200 and no error, or the error message of the endpoint (which is
    never empty) and no result. *)
Theorem handleScan_served (w : World) (st st' : Page.Home) :
  Page.handleScan (served w) st = Normal st' →
  JS.truthy (JSString.trim (Page.url st)) = true →
  ∃ reply,
    POST w (MkRequest (Normal (JObj (VStr (JSString.trim (Page.url st)))))) = Normal reply
    ∧ Page.isScanning st' = false
    ∧ match body reply with
      | ScanBody r =>
          http_status reply = 200%Z
          ∧ Page.result st' = Some (ScanBody r) ∧ Page.error st' = ""
      | ErrorBody msg =>
          Page.result st' = None ∧ Page.error st' = msg ∧ msg ≠ ""
      end.
Proof.
  intros Hrun Hblank. unfold Page.handleScan in Hrun. rewrite Hblank in Hrun.
  simpl in Hrun.
  unfold Page.handleScan_try, Page.handleScan_catch, Page.scan_started, served in Hrun.
  simpl in Hrun.
  destruct (POST w _) as [reply|e|] eqn:Hpost; simpl in Hrun;
    [|by apply POST_never_throws in Hpost|done].
  exists reply. split; [done|].
  destruct (POST_reply_cases w _ reply Hpost)
    as [[Hcode [r Hr]]|[Hcode (msg & Hmsg & Hne)]].
  - rewrite Hcode, Hr in Hrun. simpl in Hrun. injection Hrun as <-.
    rewrite Hr. simpl. auto.
  - assert (Hok : ((200 <=? http_status reply)%Z && (http_status reply <=? 299)%Z) = false).
    { destruct Hcode as [->|[->| ->]]; done. }
    rewrite Hok, Hmsg in Hrun. simpl in Hrun.
    rewrite (or_else_nonempty _ _ Hne) in Hrun. injection Hrun as <-.
    rewrite Hmsg. simpl. auto.
Qed.

End ServedFacts.

Lemma handleScan_served_witness :
  ∃ reply,
    @POST lite (Demo.net Demo.page)
      (MkRequest (Normal (JObj (VStr (JSString.trim (Page.url DemoPage.typed))))))
      = Normal reply
    ∧ body reply = ScanBody Demo.scanned.
Proof.
  assert (Hrun : Page.handleScan (@served lite (Demo.net Demo.page)) DemoPage.typed
    = Normal {| Page.url := "  https://bio.example/me "; Page.isScanning := false;
                Page.result := Some (ScanBody Demo.scanned); Page.error := "" |})
    by by vm_compute.
  destruct (@handleScan_served lite (Demo.net Demo.page) DemoPage.typed _ Hrun eq_refl)
    as (reply & Hpost & _ & Hbody).
  exists reply. split; [exact Hpost|].
  destruct (body reply) as [r|msg].
  - destruct Hbody as (_ & Hres & _). simpl in Hres. by injection Hres as ->.
  - destruct Hbody as (Hres & _). discriminate Hres.
Defined.

(** ** [trim] *)

Lemma strip_one_shorter (table : list (list Ascii.ascii)) (s s' : list Ascii.ascii) :
  Forall (λ w, w ≠ []) table →
  JSString.strip_one table s = Some s' →
  length s' < length s ∧ ∃ w, w ∈ table ∧ s = w ++ s'.
Proof.
  intros Htable. unfold JSString.strip_one.
  destruct (list_find _ table) as [[i w]|] eqn:Hfind; [|done].
  intros Hs. injection Hs as <-.
  apply list_find_Some in Hfind as (Hi & [k ->] & _).
  assert (Hw : w ∈ table) by by eapply list_elem_of_lookup_2.
  rewrite Forall_forall in Htable. specialize (Htable w Hw).
  rewrite drop_app_length. split; [|by eauto].
  rewrite length_app. destruct w; [done | simpl; lia].
Qed.

Lemma strip_clean (table : list (list Ascii.ascii)) (fuel : nat) (s : list Ascii.ascii) :
  Forall (λ w, w ≠ []) table →
  length s ≤ fuel →
  JSString.strip_one table (JSString.strip fuel table s) = None.
Proof.
  intros Htable. revert s. induction fuel as [|fuel IH]; intros s Hlen; simpl.
  - destruct (JSString.strip_one table s) as [s'|] eqn:Hs; [|done].
    apply strip_one_shorter in Hs as [Hlt _]; [lia | done].
  - destruct (JSString.strip_one table s) as [s'|] eqn:Hs; [|done].
    apply IH. apply strip_one_shorter in Hs as [Hlt _]; [lia | done].
Qed.

Lemma strip_suffix (table : list (list Ascii.ascii)) (fuel : nat) (s : list Ascii.ascii) :
  Forall (λ w, w ≠ []) table →
  JSString.strip fuel table s `suffix_of` s.
Proof.
  intros Htable. revert s. induction fuel as [|fuel IH]; intros s; simpl; [done|].
  destruct (JSString.strip_one table s) as [s'|] eqn:Hs; [|done].
  apply strip_one_shorter in Hs as [_ (w & _ & ->)]; [|done].
  etrans; [apply IH|]. by apply suffix_app_r.
Qed.

Lemma strip_one_prefix (table : list (list Ascii.ascii)) (s t : list Ascii.ascii) :
  Forall (λ w, w ≠ []) table →
  JSString.strip_one table s = None →
  t `prefix_of` s →
  JSString.strip_one table t = None.
Proof.
  intros Htable Hs Hpre.
  destruct (JSString.strip_one table t) as [t'|] eqn:Ht; [|done].
  apply strip_one_shorter in Ht as [_ (w & Hw & ->)]; [|done].
  unfold JSString.strip_one in Hs.
  destruct (list_find (λ w0, w0 `prefix_of` s) table) as [[i w0]|] eqn:Hfind; [done|].
  apply list_find_None in Hfind. rewrite Forall_forall in Hfind.
  exfalso. apply (Hfind w Hw). etrans; [|exact Hpre]. by apply prefix_app_r.
Qed.

Lemma white_space_nonempty :
  Forall (λ w, w ≠ []) JSString.white_space
  ∧ Forall (λ w, w ≠ []) (reverse <$> JSString.white_space).
Proof. split; vm_compute; repeat constructor; discriminate. Qed.

(** What [trim] returns starts with no white space and ends with none. *)
Lemma trim_clean (s : string) :
  JSString.strip_one JSString.white_space
    (String.list_ascii_of_string (JSString.trim s)) = None
  ∧ JSString.strip_one (reverse <$> JSString.white_space)
      (reverse (String.list_ascii_of_string (JSString.trim s))) = None.
Proof.
  destruct white_space_nonempty as [Hws Hrev].
  unfold JSString.trim. rewrite String.list_ascii_of_string_of_list_ascii.
  set (l := String.list_ascii_of_string s).
  set (a := JSString.strip (length l) JSString.white_space l).
  set (b := JSString.strip (length a) (reverse <$> JSString.white_space) (reverse a)).
  split.
  - apply (strip_one_prefix _ a); [done | by apply strip_clean |].
    assert (Hb : b `suffix_of` reverse a) by by apply strip_suffix.
    destruct Hb as [k Hk]. exists (reverse k).
    by rewrite <- (reverse_involutive a), Hk, reverse_app.
  - rewrite reverse_involutive. apply strip_clean; [done|].
    by rewrite length_reverse.
Qed.

(** X23: the handler consults the endpoint at one URL only, the trimmed
    content of the URL field, which starts and ends with no white space:
    two endpoints that agree there leave the page in the same state. *)
Theorem handleScan_posts_trimmed (api api' : Page.Api) (st : Page.Home) :
  api (JSString.trim (Page.url st)) = api' (JSString.trim (Page.url st)) →
  Page.handleScan api st = Page.handleScan api' st
  ∧ JSString.strip_one JSString.white_space
      (String.list_ascii_of_string (JSString.trim (Page.url st))) = None
  ∧ JSString.strip_one (reverse <$> JSString.white_space)
      (reverse (String.list_ascii_of_string (JSString.trim (Page.url st)))) = None.
Proof.
  intros Hagree. split; [|apply trim_clean].
  unfold Page.handleScan, Page.handleScan_try, Page.scan_started. simpl.
  by rewrite Hagree.
Qed.

Lemma handleScan_posts_trimmed_witness :
  Page.handleScan (@served lite (Demo.net Demo.page)) DemoPage.typed
  = Page.handleScan
      (λ u, if String.eqb u "https://bio.example/me"
            then @served lite (Demo.net Demo.page) u else Pending)
      DemoPage.typed.
Proof.
  exact (proj1 (handleScan_posts_trimmed
    (@served lite (Demo.net Demo.page))
    (λ u, if String.eqb u "https://bio.example/me"
          then @served lite (Demo.net Demo.page) u else Pending)
    DemoPage.typed eq_refl)).
Defined.
